(** * LayerNorm plugin (TensorFlow1-LayerNorm cookbook sample)

    A shallow embedding of [LayerNormPlugin.cu]: the CUDA kernel
    [layerNormKernelV1], the plugin class [LayerNormPlugin] and its creator
    [LayerNormPluginV1Creator], together with the properties the
    specification states about them. *)

From Stdlib Require Import ZArith List String Reals Lra Lia Permutation.
From Stdlib Require Import Strings.Byte.
From Stdlib Require Import Floats.SpecFloat.
From stdpp Require Import gmap strings.
From Equations Require Import Equations.
Import ListNotations.

Local Open Scope Z_scope.

(** ** Machine integers *)

(** [unsigned int] and [int] are 32 bits wide on the CUDA targets. *)
Definition to_uint32 (z : Z) : Z := z mod 2 ^ 32.
Definition to_int32 (z : Z) : Z := (z + 2 ^ 31) mod 2 ^ 32 - 2 ^ 31.

(** ** Floating-point arithmetic

    The kernel only uses [+], [-], [*], [/] on [float], the conversion of the
    [int] literal [256] to [float], and the intrinsic [rsqrtf]. The
    operations are collected in a class, so that the same kernel text can be
    run in IEEE binary32 and read in exact arithmetic. [fzero] and [fsqrt] do
    not occur in the kernel: they are used to write down sums and the
    reference formula. *)
Class FloatOps (F : Type) : Type := {
  fzero : F;
  fadd : F -> F -> F;
  fsub : F -> F -> F;
  fmul : F -> F -> F;
  fdiv : F -> F -> F;
  fsqrt : F -> F;
  rsqrtf : F -> F;
  i2f : Z -> F
}.

(** Exact arithmetic: addition is associative and commutative with neutral
    element [fzero], and [rsqrtf] is the exact reciprocal square root. *)
Class ExactArith (F : Type) `{FloatOps F} : Prop := {
  fadd_assoc : forall a b c : F, fadd a (fadd b c) = fadd (fadd a b) c;
  fadd_comm : forall a b : F, fadd a b = fadd b a;
  fadd_0_l : forall a : F, fadd fzero a = a;
  rsqrtf_exact : forall a b : F, fmul a (rsqrtf b) = fdiv a (fsqrt b)
}.

(** The real numbers. *)
#[export] Instance R_ops : FloatOps R := {|
  fzero := 0%R;
  fadd := Rplus;
  fsub := Rminus;
  fmul := Rmult;
  fdiv := Rdiv;
  fsqrt := sqrt;
  rsqrtf := fun x => (/ sqrt x)%R;
  i2f := IZR
|}.

(** IEEE 754 binary32 ([float]): precision 24, maximal exponent 128, rounding
    to nearest even, as specified by the Standard Library's [SpecFloat].
    [rsqrtf] is taken as the correctly rounded quotient of one by the
    correctly rounded square root. Every operation of the source is one
    rounded operation: a product and a sum are not contracted into a fused
    multiply-add (the build option [--fmad=false] of nvcc). *)
Definition prec32 : Z := 24.
Definition emax32 : Z := 128.
Definition b32_of_Z (z : Z) : spec_float := binary_normalize prec32 emax32 z 0 false.

#[export] Instance binary32_ops : FloatOps spec_float := {|
  fzero := S754_zero false;
  fadd := SFadd prec32 emax32;
  fsub := SFsub prec32 emax32;
  fmul := SFmul prec32 emax32;
  fdiv := SFdiv prec32 emax32;
  fsqrt := SFsqrt prec32 emax32;
  rsqrtf := fun x => SFdiv prec32 emax32 (b32_of_Z 1) (SFsqrt prec32 emax32 x);
  i2f := b32_of_Z
|}.

(** The largest finite binary32 number, [FLT_MAX] = (2^24 - 1) * 2^104. *)
Definition FLT_MAX : spec_float := S754_finite false 16777215 104.

Definition is_finite (x : spec_float) : bool :=
  match x with
  | S754_zero _ | S754_finite _ _ _ => true
  | _ => false
  end.

(** The real number a binary32 datum stands for (0 for infinities and NaN). *)
Definition SF2R (x : spec_float) : R :=
  match x with
  | S754_finite s m e =>
      let z := if s then Z.neg m else Z.pos m in
      if 0 <=? e then IZR (z * 2 ^ e) else (IZR z / IZR (2 ^ (- e)))%R
  | _ => 0%R
  end.

(** ** Device memory *)

(** A [float *] is modelled by the array it points to, indexed by [int]. *)
Definition upd {A : Type} (m : Z -> A) (i : Z) (x : A) : Z -> A :=
  fun j => if j =? i then x else m j.

(** ** The kernel [layerNormKernelV1] *)

Section Kernel.
Context {F : Type} `{FloatOps F}.

(** The threads of one block, [threadIdx.x] = 0 .. [blockDim] - 1. Between
    two [__syncthreads()] every thread runs its piece of the kernel; the
    pieces are run one thread after the other, thread 0 first. *)
Definition thread_ids (blockDim : nat) : list Z := map Z.of_nat (seq 0 blockDim).

Definition run_schedule {S : Type} (sched : list Z) (body : Z -> S -> S) (s : S) : S :=
  fold_left (fun s tx => body tx s) sched s.

Definition run_threads {S : Type} (blockDim : nat) (body : Z -> S -> S) (s : S) : S :=
  run_schedule (thread_ids blockDim) body s.

(** [index = blockIdx.x * 256 + threadIdx.x], computed in [unsigned int]
    and stored in an [int]. *)
Definition index (bid tx : Z) : Z := to_int32 (to_uint32 (bid * 256 + tx)).

(** [value0 = pInput[index]] and [value1 = pInput[index + 128]]. *)
Definition value0 (pInput : Z -> F) (bid tx : Z) : F := pInput (index bid tx).
Definition value1 (pInput : Z -> F) (bid tx : Z) : F :=
  pInput (to_int32 (index bid tx + 128)).

(** [temp[tx] = value0 + value1]. *)
Definition store_partial (pInput : Z -> F) (bid tx : Z) (temp : Z -> F) : Z -> F :=
  upd temp tx (fadd (value0 pInput bid tx) (value1 pInput bid tx)).

(** [if (tx < stride) temp[tx] += temp[tx + stride];] *)
Definition reduce_thread (stride tx : Z) (temp : Z -> F) : Z -> F :=
  if tx <? stride then upd temp tx (fadd (temp tx) (temp (tx + stride))) else temp.

(** [for (int stride = ...; stride >= 1; stride /= 2) { ...; __syncthreads(); }] *)
Equations reduce (blockDim : nat) (stride : Z) (temp : Z -> F) : Z -> F
  by wf (Z.to_nat stride) lt :=
  reduce blockDim stride temp with Z_le_dec 1 stride := {
    | left _ => reduce blockDim (Z.quot stride 2)
                  (run_threads blockDim (reduce_thread stride) temp)
    | right _ => temp }.
Next Obligation.
  assert (Z.quot stride 2 < stride) by (apply Z.quot_lt; lia).
  assert (0 <= Z.quot stride 2) by (apply Z.quot_pos; lia).
  lia.
Qed.

(** [temp[tx] = (value0 - mean) * (value0 - mean) + (value1 - mean) * (value1 - mean)]. *)
Definition sqdev (v0 v1 mean : F) : F :=
  fadd (fmul (fsub v0 mean) (fsub v0 mean)) (fmul (fsub v1 mean) (fsub v1 mean)).

Definition store_sqdev (pInput : Z -> F) (bid : Z) (mean : F) (tx : Z) (temp : Z -> F)
  : Z -> F :=
  upd temp tx (sqdev (value0 pInput bid tx) (value1 pInput bid tx) mean).

(** [pOutput[index] = (value0 - mean) * rsqrtf(var + epsilon)] and the same
    for [value1] at [index + 128]. *)
Definition store_output (pInput : Z -> F) (epsilon : F) (bid : Z) (mean var : F)
    (tx : Z) (pOutput : Z -> F) : Z -> F :=
  let out := upd pOutput (index bid tx)
               (fmul (fsub (value0 pInput bid tx) mean) (rsqrtf (fadd var epsilon))) in
  upd out (to_int32 (index bid tx + 128))
    (fmul (fsub (value1 pInput bid tx) mean) (rsqrtf (fadd var epsilon))).

(** The shared array [temp] after each barrier of block [bid]; [temp0] is
    what the shared memory holds when the block starts. *)
Definition temp_loaded (blockDim : nat) (pInput : Z -> F) (bid : Z) (temp0 : Z -> F)
  : Z -> F :=
  run_threads blockDim (store_partial pInput bid) temp0.

Definition temp_sum (blockDim : nat) (pInput : Z -> F) (bid : Z) (temp0 : Z -> F)
  : Z -> F :=
  reduce blockDim 64 (temp_loaded blockDim pInput bid temp0).

(** [float mean = temp[0] / 256;] *)
Definition block_mean (blockDim : nat) (pInput : Z -> F) (bid : Z) (temp0 : Z -> F) : F :=
  fdiv (temp_sum blockDim pInput bid temp0 0) (i2f 256).

Definition temp_sqdev (blockDim : nat) (pInput : Z -> F) (bid : Z) (temp0 : Z -> F)
  : Z -> F :=
  run_threads blockDim
    (store_sqdev pInput bid (block_mean blockDim pInput bid temp0))
    (temp_sum blockDim pInput bid temp0).

Definition temp_sqsum (blockDim : nat) (pInput : Z -> F) (bid : Z) (temp0 : Z -> F)
  : Z -> F :=
  reduce blockDim 64 (temp_sqdev blockDim pInput bid temp0).

(** [float var = temp[0] / 256;] *)
Definition block_var (blockDim : nat) (pInput : Z -> F) (bid : Z) (temp0 : Z -> F) : F :=
  fdiv (temp_sqsum blockDim pInput bid temp0 0) (i2f 256).

(** One block of the kernel. *)
Definition layerNormKernelV1_block (blockDim : nat) (pInput : Z -> F) (epsilon : F)
    (bid : Z) (temp0 : Z -> F) (pOutput : Z -> F) : Z -> F :=
  run_threads blockDim
    (store_output pInput epsilon bid
       (block_mean blockDim pInput bid temp0) (block_var blockDim pInput bid temp0))
    pOutput.

(** The launch [layerNormKernelV1<<<gridDim, blockDim>>>(pInput, pOutput,
    epsilon)]: blocks do not communicate, each has a shared array of its
    own ([smem bid] is its initial content); they are run one after the
    other. The result is the output array once the kernel has completed. *)
Definition layerNormKernelV1 (gridDim blockDim : nat) (smem : Z -> Z -> F)
    (pInput pOutput : Z -> F) (epsilon : F) : Z -> F :=
  fold_left
    (fun out bid => layerNormKernelV1_block blockDim pInput epsilon bid (smem bid) out)
    (map Z.of_nat (seq 0 gridDim)) pOutput.

(** *** Reference quantities *)

(** Left-to-right sum of [f 0], ..., [f (n-1)]. *)
Fixpoint fsum (n : nat) (f : Z -> F) : F :=
  match n with
  | O => fzero
  | S k => fadd (fsum k f) (f (Z.of_nat k))
  end.

(** The value the tree reduction leaves in slot [i] after [k] halving
    steps, the first one with stride [2^(k-1)]. *)
Fixpoint tree_sum (k : nat) (f : Z -> F) (i : Z) : F :=
  match k with
  | O => f i
  | S k' => tree_sum k' (fun j => fadd (f j) (f (j + 2 ^ Z.of_nat k'))) i
  end.

(** Vector [v] of the batch: its element [i] is [pInput[v * 256 + i]]. *)
Definition vector (pInput : Z -> F) (v : Z) : Z -> F := fun i => pInput (v * 256 + i).

(** The value block [bid] stores for element [i] of its vector. *)
Definition normalised (pInput : Z -> F) (epsilon : F) (bid : Z) (temp0 : Z -> F) (i : Z) : F :=
  fmul (fsub (vector pInput bid i) (block_mean 128 pInput bid temp0))
       (rsqrtf (fadd (block_var 128 pInput bid temp0) epsilon)).

(** Arithmetic mean, population variance and normalised element of a
    vector of width 256, as the specification words them. *)
Definition mean_spec (x : Z -> F) : F := fdiv (fsum 256 x) (i2f 256).

Definition var_spec (x : Z -> F) : F :=
  fdiv (fsum 256 (fun i => fmul (fsub (x i) (mean_spec x)) (fsub (x i) (mean_spec x))))
       (i2f 256).

Definition layerNorm_spec (x : Z -> F) (epsilon : F) (i : Z) : F :=
  fdiv (fsub (x i) (mean_spec x)) (fsqrt (fadd (var_spec x) epsilon)).

(** The single-pass formula E[x^2] - E[x]^2, which the kernel does not use. *)
Definition var_single_pass (x : Z -> F) : F :=
  fsub (fdiv (fsum 256 (fun i => fmul (x i) (x i))) (i2f 256))
       (fmul (mean_spec x) (mean_spec x)).

End Kernel.

(** ** Host data *)

(** As for device memory, a host pointer is modelled by the array it points
    to, indexed by [int]. *)

(** *** Bytes and the object representation of [float] *)

Definition byte_of_Z (z : Z) : byte :=
  match Byte.of_N (Z.to_N (z mod 256)) with
  | Some b => b
  | None => x00
  end.

Definition Z_of_byte (b : byte) : Z := Z.of_N (Byte.to_N b).

(** The [n] bytes of an unsigned integer, least significant first, and the
    integer a sequence of bytes stands for. *)
Fixpoint le_bytes (n : nat) (z : Z) : list byte :=
  match n with
  | O => []
  | S k => byte_of_Z z :: le_bytes k (z / 256)
  end.

Fixpoint le_value (bs : list byte) : Z :=
  match bs with
  | [] => 0
  | b :: rest => Z_of_byte b + 256 * le_value rest
  end.

(** On the host a [float] is only stored, copied and passed on: it is kept
    as its 32-bit pattern. [1.0e-5f] is the pattern [0x3727C5AC]. *)
Definition float_wf (bits : Z) : Prop := 0 <= bits < 2 ^ 32.
Definition float_1em5 : Z := 0x3727C5AC.

(** The binary32 datum of a bit pattern: sign, 8 bits of biased exponent, 23
    bits of fraction. *)
Definition b32_of_bits (bits : Z) : spec_float :=
  let s := Z.testbit bits 31 in
  let e := Z.land (Z.shiftr bits 23) 255 in
  let m := Z.land bits (2 ^ 23 - 1) in
  if e =? 0 then
    if m =? 0 then S754_zero s else S754_finite s (Z.to_pos m) (-149)
  else if e =? 255 then
    if m =? 0 then S754_infinity s else S754_nan
  else S754_finite s (Z.to_pos (m + 2 ^ 23)) (e - 150).

(** How the kernel reads the bit pattern of a [float] argument. *)
Class FloatRepr (F : Type) : Type := { of_bits : Z -> F }.
#[export] Instance binary32_repr : FloatRepr spec_float := {| of_bits := b32_of_bits |}.
#[export] Instance R_repr : FloatRepr R := {| of_bits := fun bits => SF2R (b32_of_bits bits) |}.

(** [memcpy(dst, src, n)]: the array at [dst] afterwards. *)
Definition memcpy (dst src : Z -> byte) (n : Z) : Z -> byte :=
  fun i => if (0 <=? i) && (i <? n) then src i else dst i.

(** *** TensorRT types used by the plugin (from [NvInfer.h]) *)

Inductive DataType : Set := kFLOAT | kHALF | kINT8 | kINT32 | kBOOL.

Inductive TensorFormat : Set :=
  | kLINEAR | kCHW2 | kHWC8 | kCHW4 | kCHW16 | kCHW32
  | kDHWC8 | kCDHW32 | kHWC | kDLA_LINEAR | kDLA_HWC4 | kHWC16.

Inductive PluginFieldType : Set :=
  | kFLOAT16 | kFLOAT32 | kFLOAT64 | kINT8_field | kINT16_field | kINT32_field
  | kCHAR | kDIMS | kUNKNOWN.

#[export] Instance DataType_eq_dec : EqDecision DataType.
Proof. solve_decision. Defined.

#[export] Instance TensorFormat_eq_dec : EqDecision TensorFormat.
Proof. solve_decision. Defined.

(** [Dims]: [d] holds [MAX_DIMS] = 8 extents of which the first [nbDims]
    are meaningful. *)
Record Dims : Set := { nbDims : Z; d : list Z }.

Definition d_at (dims : Dims) (i : nat) : Z := nth i (d dims) 0.

Record PluginTensorDesc : Set := {
  dims : Dims;
  type : DataType;
  format : TensorFormat
}.

(** [PluginField]: [data] is [None] for a null pointer. *)
Record PluginField : Type := {
  field_name : string;
  field_data : option (Z -> byte);
  field_type : PluginFieldType;
  field_length : Z
}.

Record PluginFieldCollection : Type := {
  nbFields : Z;
  fields : Z -> PluginField
}.

(** *** The device as the host sees it *)

(** A kernel launch placed on a stream. *)
Record Launch : Set := {
  gridDim : Z;
  blockDim : Z;
  sharedMem : Z;
  on_stream : Z;
  arg_pInput : Z;
  arg_pOutput : Z;
  arg_epsilon : Z
}.

Inductive cudaError_t : Set := cudaSuccess | cudaErrorInvalidConfiguration.

(** Device memory, the launches enqueued and not yet completed, in issue
    order, and the error recorded by the last failed launch. The memory is
    one address space of [float] cells: a device pointer is the address of a
    cell and [p[i]] is the cell at [p + i], so that an access past the end of
    a buffer falls into whatever lies behind it. *)
Record Device (F : Type) : Type := {
  mem : Z -> F;
  pending : list Launch;
  last_error : cudaError_t
}.
Arguments mem {F} _ _.
Arguments pending {F} _.
Arguments last_error {F} _.

(** A launch configuration is accepted when the grid has between 1 and
    2^31 - 1 blocks and a block between 1 and 1024 threads. *)
Definition valid_config (l : Launch) : bool :=
  (1 <=? gridDim l) && (gridDim l <=? 2 ^ 31 - 1)
  && (1 <=? blockDim l) && (blockDim l <=? 1024).

(** [kernel<<<grid, block, shared, stream>>>(args)]: the launch is put on
    the stream and control returns; an invalid configuration is not
    launched, the error is recorded. *)
Definition cudaLaunchKernel {F : Type} (l : Launch) (dev : Device F) : Device F :=
  if valid_config l
  then {| mem := mem dev; pending := pending dev ++ [l]; last_error := last_error dev |}
  else {| mem := mem dev; pending := pending dev;
          last_error := cudaErrorInvalidConfiguration |}.

(** Completion of a launch of [layerNormKernelV1], and of all the pending
    launches ([cudaStreamSynchronize]); [smem] is the initial content of the
    shared memory of each block. The kernel runs on the memory itself:
    [pInput[i]] is the cell at [arg_pInput + i] and a store into
    [pOutput[i]] changes the cell at [arg_pOutput + i], wherever that is.
    Every block loads its elements from the memory as it is when the kernel
    starts; this is every run when no block stores into the elements of
    another block's vector of the input (buffers that do not overlap, or
    the same buffer for both), and one of the possible runs otherwise. *)
Definition complete_launch {F : Type} `{FloatOps F} `{FloatRepr F}
    (smem : Z -> Z -> F) (memory : Z -> F) (l : Launch) : Z -> F :=
  let out :=
    layerNormKernelV1 (Z.to_nat (gridDim l)) (Z.to_nat (blockDim l)) smem
      (fun i => memory (arg_pInput l + i)) (fun i => memory (arg_pOutput l + i))
      (of_bits (arg_epsilon l)) in
  fun a => out (a - arg_pOutput l).

Definition cudaStreamSynchronize {F : Type} `{FloatOps F} `{FloatRepr F}
    (smem : Z -> Z -> F) (dev : Device F) : Device F :=
  {| mem := fold_left (complete_launch smem) (pending dev) (mem dev);
     pending := [];
     last_error := last_error dev |}.

(** ** class LayerNormPlugin *)

(** Modelled from the spec: the member [m_] is declared in
    [LayerNormPlugin.h], which is not among the sources; the specification
    gives the Configuration as exactly one 32-bit float, the stability
    offset, in a blob of [sizeof(Configuration)] bytes. *)
Record Configuration : Set := { epsilon : Z }.

Definition sizeof_Configuration : Z := 4.

(** The object representation of [m_] (little endian), and the value of an
    object with given bytes. *)
Definition Configuration_bytes (m : Configuration) : Z -> byte :=
  fun i => nth (Z.to_nat i) (le_bytes 4 (epsilon m)) x00.

Definition Configuration_of_bytes (p : Z -> byte) : Configuration :=
  {| epsilon := le_value (map p [0; 1; 2; 3]) |}.

Record LayerNormPlugin : Set := {
  name_ : string;
  namespace_ : string;
  m_ : Configuration
}.

(** Modelled from the spec: the macro [WHERE_AM_I] comes from
    [LayerNormPlugin.h], which is not among the sources; the specification
    describes the members that call it as having no effect besides their
    result, so the macro leaves the object as it is. *)
Definition WHERE_AM_I (this : LayerNormPlugin) (func : string) : LayerNormPlugin := this.

(** [LayerNormPlugin(const std::string &name, float epsilon)] *)
Definition new_LayerNormPlugin (name : string) (eps : Z) : LayerNormPlugin :=
  let this := {| name_ := name; namespace_ := ""; m_ := {| epsilon := 0 |} |} in
  let this := WHERE_AM_I this "LayerNormPlugin" in
  {| name_ := name_ this; namespace_ := namespace_ this; m_ := {| epsilon := eps |} |}.

(** [LayerNormPlugin(const std::string &name, const void *buffer, size_t length)]:
    [memcpy(&m_, buffer, sizeof(m_))]. *)
Definition new_LayerNormPlugin_from_buffer (name : string) (buffer : Z -> byte)
    (length : Z) : LayerNormPlugin :=
  let this := {| name_ := name; namespace_ := ""; m_ := {| epsilon := 0 |} |} in
  let this := WHERE_AM_I this "LayerNormPlugin" in
  {| name_ := name_ this; namespace_ := namespace_ this;
     m_ := Configuration_of_bytes
             (memcpy (Configuration_bytes (m_ this)) buffer sizeof_Configuration) |}.

Definition getNbOutputs (this : LayerNormPlugin) : Z :=
  let this := WHERE_AM_I this "getNbOutputs" in 1.

(** [supportsFormatCombination]: the result and the object after the call
    (the member is not [const]). *)
Definition supportsFormatCombination (this : LayerNormPlugin) (pos : Z)
    (inOut : Z -> PluginTensorDesc) (nbInputs nbOutputs : Z) : bool * LayerNormPlugin :=
  let this := WHERE_AM_I this "supportsFormatCombination" in
  if pos =? 0 then
    (bool_decide (type (inOut 0) = kFLOAT) && bool_decide (format (inOut 0) = kLINEAR), this)
  else if pos =? 1 then
    (bool_decide (type (inOut 1) = type (inOut 0))
     && bool_decide (format (inOut 1) = format (inOut 0)), this)
  else (false, this).

(** [enqueue]: the status returned, the object and the device after the
    call. [nBlock] is the [int] product of the first two extents. *)
Definition enqueue {F : Type} (this : LayerNormPlugin)
    (inputDesc outputDesc : Z -> PluginTensorDesc) (inputs outputs : Z -> Z)
    (workspace : Z) (stream : Z) (dev : Device F) : Z * LayerNormPlugin * Device F :=
  let this := WHERE_AM_I this "enqueue" in
  let nBlock := to_int32 (d_at (dims (inputDesc 0)) 0 * d_at (dims (inputDesc 0)) 1) in
  let dev := cudaLaunchKernel
               {| gridDim := to_uint32 nBlock; blockDim := 128; sharedMem := 0;
                  on_stream := stream;
                  arg_pInput := inputs 0; arg_pOutput := outputs 0;
                  arg_epsilon := epsilon (m_ this) |} dev in
  (0, this, dev).

Definition getSerializationSize (this : LayerNormPlugin) : Z :=
  let this := WHERE_AM_I this "getSerializationSize" in sizeof_Configuration.

(** [serialize]: the array at [buffer] after [memcpy(buffer, &m_, sizeof(m_))]. *)
Definition serialize (this : LayerNormPlugin) (buffer : Z -> byte) : Z -> byte :=
  let this := WHERE_AM_I this "serialize" in
  memcpy buffer (Configuration_bytes (m_ this)) sizeof_Configuration.

(** ** class LayerNormPluginV1Creator *)

(** The local variables [parameterMap] points to. *)
Inductive Local : Set := local_epsilon.

Record Locals : Set := { epsilon_var : Z }.

Definition store_float (p : Local) (bits : Z) (locals : Locals) : Locals :=
  match p with
  | local_epsilon => {| epsilon_var := bits |}
  end.

(** [*reinterpret_cast<const float *>(data)] *)
Definition load_float (data : Z -> byte) : Z := le_value (map data [0; 1; 2; 3]).

(** The body of the loop of [createPlugin] for [fields[i]]; [None] when a
    null [data] is dereferenced. *)
Definition createPlugin_step (parameterMap : gmap string Local) (fc : PluginFieldCollection)
    (locals : option Locals) (i : Z) : option Locals :=
  match locals with
  | None => None
  | Some locals =>
      match parameterMap !! field_name (fields fc i) with
      | Some p =>
          match field_data (fields fc i) with
          | Some data => Some (store_float p (load_float data) locals)
          | None => None
          end
      | None => Some locals
      end
  end.

Definition createPlugin (name : string) (fc : PluginFieldCollection)
    : option LayerNormPlugin :=
  let locals := {| epsilon_var := float_1em5 |} in
  let parameterMap : gmap string Local := {[ "epsilon"%string := local_epsilon ]} in
  match fold_left (createPlugin_step parameterMap fc)
          (map Z.of_nat (seq 0 (Z.to_nat (nbFields fc)))) (Some locals) with
  | Some locals => Some (new_LayerNormPlugin name (epsilon_var locals))
  | None => None
  end.

Definition deserializePlugin (name : string) (serialData : Z -> byte) (serialLength : Z)
    : LayerNormPlugin :=
  new_LayerNormPlugin_from_buffer name serialData serialLength.

(** *** Reference quantities of the host side *)

(** The product of the leading extents, all but the last of the first
    [nbDims]. *)
Definition leading_product (dims : Dims) : Z :=
  fold_right Z.mul 1 (firstn (Z.to_nat (nbDims dims) - 1) (d dims)).

(** The fields of a collection named epsilon without a null [data]: the
    ones [createPlugin] can read. *)
Definition epsilon_fields_have_data (fc : PluginFieldCollection) : Prop :=
  forall i, 0 <= i < nbFields fc ->
    field_name (fields fc i) = "epsilon"%string -> is_Some (field_data (fields fc i)).

(** *** Sample data in binary32 *)

Definition zeros : Z -> spec_float := fun _ => S754_zero false.

(** A vector whose 256 elements are all [FLT_MAX]. *)
Definition x_FLT_MAX : Z -> spec_float := fun _ => FLT_MAX.

(** A shared array holding [FLT_MAX] in slots 0 and 64, [-FLT_MAX] in slots 1
    and 65, and zero elsewhere. *)
Definition temp_cancelling : Z -> spec_float :=
  fun i =>
    if (i =? 0) || (i =? 64) then FLT_MAX
    else if (i =? 1) || (i =? 65) then SFopp FLT_MAX
    else S754_zero false.

(** A vector that alternates between 4096 and 4097. *)
Definition x_large_mean : Z -> spec_float := fun i => b32_of_Z (4096 + i mod 2).

(** *** Sample data of the host side *)

Definition plugin_1em5 : LayerNormPlugin := new_LayerNormPlugin "LayerNorm" float_1em5.

Definition idle_device : Device spec_float :=
  {| mem := zeros; pending := []; last_error := cudaSuccess |}.

(** Descriptors of a [4, 256] tensor, of an empty [0, 5, 256] tensor and of a
    [2, 3, 256] tensor. *)
Definition desc_rank2 : PluginTensorDesc :=
  {| dims := {| nbDims := 2; d := [4; 256; 0; 0; 0; 0; 0; 0] |};
     type := kFLOAT; format := kLINEAR |}.

Definition desc_empty : PluginTensorDesc :=
  {| dims := {| nbDims := 3; d := [0; 5; 256; 0; 0; 0; 0; 0] |};
     type := kFLOAT; format := kLINEAR |}.

Definition desc_rank3 : PluginTensorDesc :=
  {| dims := {| nbDims := 3; d := [2; 3; 256; 0; 0; 0; 0; 0] |};
     type := kFLOAT; format := kLINEAR |}.

Definition desc_half : PluginTensorDesc :=
  {| dims := {| nbDims := 3; d := [2; 3; 256; 0; 0; 0; 0; 0] |};
     type := kHALF; format := kLINEAR |}.

(** A field collection with a field named alpha and one named epsilon, the
    latter holding the pattern of [0.5f], [0x3F000000]. *)
Definition bytes_half : Z -> byte := fun i => nth (Z.to_nat i) [x00; x00; x00; x3f] x00.

Definition fc_sample : PluginFieldCollection :=
  {| nbFields := 2;
     fields := fun i =>
       if i =? 1
       then {| field_name := "epsilon"; field_data := Some bytes_half;
               field_type := kFLOAT32; field_length := 1 |}
       else {| field_name := "alpha"; field_data := None;
               field_type := kINT32_field; field_length := 1 |} |}.

(** ** Further members and reference quantities *)

(** [std::string::c_str()]: what a reader of the [const char *] sees, the
    characters before the first NUL. A [const char *] parameter is modelled
    by the C string it holds. *)
Fixpoint c_str (s : string) : string :=
  match s with
  | EmptyString => EmptyString
  | String c rest => if Ascii.eqb c Ascii.zero then EmptyString else String c (c_str rest)
  end.

(** [void setPluginNamespace(const char *pluginNamespace)] *)
Definition setPluginNamespace (this : LayerNormPlugin) (pluginNamespace : string)
    : LayerNormPlugin :=
  let this := WHERE_AM_I this "setPluginNamespace" in
  {| name_ := name_ this; namespace_ := pluginNamespace; m_ := m_ this |}.

(** [const char *getPluginNamespace() const]: [namespace_.c_str()]. *)
Definition getPluginNamespace (this : LayerNormPlugin) : string :=
  let this := WHERE_AM_I this "getPluginNamespace" in
  c_str (namespace_ this).

(** [clone]: [new LayerNormPlugin(name_, &m_, sizeof(m_))] followed by
    [p->setPluginNamespace(namespace_.c_str())]. *)
Definition clone (this : LayerNormPlugin) : LayerNormPlugin :=
  let this := WHERE_AM_I this "clone" in
  let p := new_LayerNormPlugin_from_buffer (name_ this) (Configuration_bytes (m_ this))
             sizeof_Configuration in
  setPluginNamespace p (c_str (namespace_ this)).

(** [getOutputDataType] *)
Definition getOutputDataType (this : LayerNormPlugin) (index : Z)
    (inputTypes : Z -> DataType) (nbInputs : Z) : DataType :=
  let this := WHERE_AM_I this "getOutputDataType" in
  kFLOAT.

(** The static members [fc_] and [attr_] of the creator; [fc_.fields] points
    into [attr_]. Reading past the end of [attr_] is given a field without
    name. *)
Record CreatorStatics : Type := {
  attr_ : list PluginField;
  fc_ : PluginFieldCollection
}.

Definition no_field : PluginField :=
  {| field_name := ""; field_data := None; field_type := kUNKNOWN; field_length := 0 |}.

Definition vector_data (v : list PluginField) : Z -> PluginField :=
  fun i => if 0 <=? i then nth (Z.to_nat i) v no_field else no_field.

(** [LayerNormPluginV1Creator()]: [attr_.clear()], then
    [attr_.emplace_back(PluginField("epsilon", nullptr, kFLOAT32, 1))],
    [fc_.nbFields = attr_.size()] and [fc_.fields = attr_.data()]. *)
Definition new_LayerNormPluginV1Creator (statics : CreatorStatics) : CreatorStatics :=
  let attr : list PluginField := [] in
  let attr := attr ++ [{| field_name := "epsilon"; field_data := None;
                          field_type := kFLOAT32; field_length := 1 |}] in
  {| attr_ := attr;
     fc_ := {| nbFields := Z.of_nat (length attr); fields := vector_data attr |} |}.

(** [getFieldNames]: [&fc_]. *)
Definition getFieldNames (statics : CreatorStatics) : PluginFieldCollection := fc_ statics.

(** The number of elements of a tensor. *)
Definition volume (dims : Dims) : Z :=
  fold_right Z.mul 1 (firstn (Z.to_nat (nbDims dims)) (d dims)).

(** Mean, variance and normalised element with the sums taken in the order
    of the tree reduction and the reciprocal square root of the kernel:
    what the kernel computes, in whatever arithmetic. *)
Definition mean_tree {F : Type} `{FloatOps F} (x : Z -> F) : F :=
  fdiv (tree_sum 7 (fun t => fadd (x t) (x (t + 128))) 0) (i2f 256).

Definition var_tree {F : Type} `{FloatOps F} (x : Z -> F) : F :=
  fdiv (tree_sum 7
          (fun t => fadd (fmul (fsub (x t) (mean_tree x)) (fsub (x t) (mean_tree x)))
                         (fmul (fsub (x (t + 128)) (mean_tree x))
                               (fsub (x (t + 128)) (mean_tree x)))) 0)
       (i2f 256).

Definition layerNorm_tree {F : Type} `{FloatOps F} (x : Z -> F) (epsilon : F) (i : Z) : F :=
  fmul (fsub (x i) (mean_tree x)) (rsqrtf (fadd (var_tree x) epsilon)).

(** A vector with a NaN at element 200, other elements 0, 1, 2. *)
Definition x_with_nan : Z -> spec_float :=
  fun i => if i =? 200 then S754_nan else b32_of_Z (i mod 3).

(** A device whose memory holds [x_with_nan]. *)
Definition device_x : Device spec_float :=
  {| mem := x_with_nan; pending := []; last_error := cudaSuccess |}.

(** *** The predicate in its environment

    [WHERE_AM_I] is a macro of [LayerNormPlugin.h], which is not among the
    sources. Here its expansion is a parameter. The macro takes no argument
    and is expanded in every member, those without parameters and those of
    the creator included, so its expansion can name the object, the name of
    the member and what lies outside the plugin (the standard output of a
    trace, say), not the arguments of one call. A world is the object, the
    array [inOut] points to and what lies outside. *)
Record World (E : Type) : Type := {
  object : LayerNormPlugin;
  descriptors : Z -> PluginTensorDesc;
  outside : E
}.
Arguments object {E} _.
Arguments descriptors {E} _ _.
Arguments outside {E} _.

Definition Macro (E : Type) : Type :=
  string -> LayerNormPlugin -> E -> LayerNormPlugin * E.

Definition expand_WHERE_AM_I {E : Type} (macro : Macro E) (func : string)
    (w : World E) : World E :=
  {| object := (macro func (object w) (outside w)).1;
     descriptors := descriptors w;
     outside := (macro func (object w) (outside w)).2 |}.

(** [supportsFormatCombination(pos, inOut, nbInputs, nbOutputs)] run in a
    world: the result and the world after the call. *)
Definition supportsFormatCombination_in {E : Type} (macro : Macro E)
    (pos nbInputs nbOutputs : Z) (w : World E) : bool * World E :=
  let w := expand_WHERE_AM_I macro "supportsFormatCombination" w in
  if pos =? 0 then
    (bool_decide (type (descriptors w 0) = kFLOAT)
     && bool_decide (format (descriptors w 0) = kLINEAR), w)
  else if pos =? 1 then
    (bool_decide (type (descriptors w 1) = type (descriptors w 0))
     && bool_decide (format (descriptors w 1) = format (descriptors w 0)), w)
  else (false, w).

(** Two expansions: one that is empty, and one that appends the name of the
    member to a trace and renames the object. *)
Definition macro_empty : Macro unit := fun _ this e => (this, e).

Definition macro_trace : Macro (list string) :=
  fun func this e =>
    ({| name_ := func; namespace_ := namespace_ this; m_ := m_ this |}, e ++ [func]).

(** The static members before any creator is constructed. *)
Definition statics_initial : CreatorStatics :=
  {| attr_ := []; fc_ := {| nbFields := 0; fields := vector_data [] |} |}.

(** A [4, 256] tensor of another type and format, and two worlds whose
    descriptors agree in type and format only. *)
Definition desc_int8_chw4 : PluginTensorDesc :=
  {| dims := {| nbDims := 2; d := [4; 256; 0; 0; 0; 0; 0; 0] |};
     type := kINT8; format := kCHW4 |}.

Definition world_traced : World (list string) :=
  {| object := plugin_1em5;
     descriptors := fun i => if i =? 0 then desc_rank3 else desc_int8_chw4;
     outside := [] |}.

Definition world_silent : World unit :=
  {| object := new_LayerNormPlugin "other" 0;
     descriptors := fun i =>
       if i =? 0 then desc_empty
       else if i =? 1 then
         {| dims := {| nbDims := 1; d := [7; 0; 0; 0; 0; 0; 0; 0] |};
            type := kINT8; format := kCHW4 |}
       else desc_half;
     outside := tt |}.

(** * Properties *)

(** ** Memory and schedules *)

(** Case analysis on the integer comparisons of a goal. *)
Ltac zcases :=
  repeat match goal with
    | |- context [?a <=? ?b] => destruct (Z.leb_spec a b)
    | |- context [?a <? ?b] => destruct (Z.ltb_spec a b)
    | |- context [?a =? ?b] => destruct (Z.eqb_spec a b)
    end;
  cbn [andb orb negb]; try lia; try reflexivity.

Lemma upd_eq {A : Type} (m : Z -> A) (i : Z) (x : A) : upd m i x i = x.
Proof. unfold upd. now rewrite Z.eqb_refl. Qed.

Lemma upd_neq {A : Type} (m : Z -> A) (i j : Z) (x : A) : j <> i -> upd m i x j = m j.
Proof. unfold upd. intros Hne. now destruct (Z.eqb_spec j i). Qed.

Lemma to_int32_small (z : Z) : - 2 ^ 31 <= z < 2 ^ 31 -> to_int32 z = z.
Proof. unfold to_int32. intros Hz. rewrite Z.mod_small; lia. Qed.

Lemma to_uint32_small (z : Z) : 0 <= z < 2 ^ 32 -> to_uint32 z = z.
Proof. unfold to_uint32. intros Hz. now apply Z.mod_small. Qed.

Section KernelFacts.
Context {F : Type} `{FloatOps F}.

Lemma index_small (bid tx : Z) :
  0 <= bid < 2 ^ 23 -> 0 <= tx < 128 -> index bid tx = bid * 256 + tx.
Proof.
  intros Hb Ht. unfold index.
  rewrite to_uint32_small by lia. apply to_int32_small. lia.
Qed.

Lemma index_128_small (bid tx : Z) :
  0 <= bid < 2 ^ 23 -> 0 <= tx < 128 ->
  to_int32 (index bid tx + 128) = bid * 256 + (tx + 128).
Proof.
  intros Hb Ht. rewrite index_small by assumption.
  rewrite to_int32_small; lia.
Qed.

Lemma value0_vector (pInput : Z -> F) (bid tx : Z) :
  0 <= bid < 2 ^ 23 -> 0 <= tx < 128 -> value0 pInput bid tx = vector pInput bid tx.
Proof. intros Hb Ht. unfold value0, vector. now rewrite index_small. Qed.

Lemma value1_vector (pInput : Z -> F) (bid tx : Z) :
  0 <= bid < 2 ^ 23 -> 0 <= tx < 128 ->
  value1 pInput bid tx = vector pInput bid (tx + 128).
Proof. intros Hb Ht. unfold value1, vector. now rewrite index_128_small. Qed.

Lemma run_threads_S {S : Type} (n : nat) (body : Z -> S -> S) (s : S) :
  run_threads (Datatypes.S n) body s = body (Z.of_nat n) (run_threads n body s).
Proof.
  unfold run_threads, run_schedule, thread_ids.
  rewrite seq_S, map_app, fold_left_app. reflexivity.
Qed.

(** A phase in which thread [tx] stores into its own slot a value that does
    not depend on the array. *)
Lemma run_threads_own (n : nat) (val : Z -> F) (s : Z -> F) (i : Z) :
  run_threads n (fun tx t => upd t tx (val tx)) s i
  = if (0 <=? i) && (i <? Z.of_nat n) then val i else s i.
Proof.
  induction n as [|n IH].
  - cbn. zcases.
  - rewrite run_threads_S. unfold upd at 1. rewrite IH.
    destruct (Z.eqb_spec i (Z.of_nat n)) as [->|Hne]; zcases.
Qed.

(** One step of the reduction: the slots below [stride] (that have a thread)
    receive the slot [stride] further up, the others are left alone. The
    slots read by a thread are not written by any other thread of the step. *)
Lemma run_reduce_thread (n : nat) (stride : Z) (temp : Z -> F) (i : Z) :
  0 <= stride ->
  run_threads n (reduce_thread stride) temp i
  = if (0 <=? i) && (i <? Z.of_nat n) && (i <? stride)
    then fadd (temp i) (temp (i + stride)) else temp i.
Proof.
  intros Hs. revert i. induction n as [|n IH]; intros i.
  - cbn. zcases.
  - rewrite run_threads_S. unfold reduce_thread at 1.
    destruct (Z.ltb_spec (Z.of_nat n) stride) as [Hlt|Hge].
    + destruct (Z.eqb_spec i (Z.of_nat n)) as [->|Hne].
      * rewrite upd_eq, !IH. zcases.
      * rewrite upd_neq by assumption. rewrite IH. zcases.
    + rewrite IH. zcases.
Qed.

(** The loop of the reduction. *)
Lemma reduce_step (n : nat) (stride : Z) (temp : Z -> F) :
  1 <= stride ->
  reduce n stride temp
  = reduce n (Z.quot stride 2) (run_threads n (reduce_thread stride) temp).
Proof.
  intros Hs. rewrite reduce_equation_1.
  destruct (Z_le_dec 1 stride); [reflexivity|contradiction].
Qed.

Lemma reduce_stop (n : nat) (stride : Z) (temp : Z -> F) :
  stride < 1 -> reduce n stride temp = temp.
Proof.
  intros Hs. rewrite reduce_equation_1.
  destruct (Z_le_dec 1 stride); [lia|reflexivity].
Qed.

(** From stride 64 the loop makes exactly seven steps and stops. *)
Lemma reduce_64_steps (n : nat) (temp : Z -> F) :
  reduce n 64 temp
  = fold_left (fun t stride => run_threads n (reduce_thread stride) t)
      [64; 32; 16; 8; 4; 2; 1] temp.
Proof.
  do 7 (rewrite reduce_step by lia;
        match goal with |- context [Z.quot ?a 2] =>
          let q := eval vm_compute in (Z.quot a 2) in
          change (Z.quot a 2) with q end).
  rewrite reduce_stop by lia. reflexivity.
Qed.

Lemma tree_sum_ext (k : nat) (f g : Z -> F) (i : Z) :
  (forall j, i <= j < i + 2 ^ Z.of_nat k -> f j = g j) ->
  tree_sum k f i = tree_sum k g i.
Proof.
  revert f g. induction k as [|k IH]; intros f g Hfg.
  - cbn. apply Hfg. cbn. lia.
  - cbn [tree_sum]. apply IH. intros j Hj.
    assert (Hp : 2 ^ Z.of_nat (S k) = 2 * 2 ^ Z.of_nat k)
      by (rewrite Nat2Z.inj_succ, Z.pow_succ_r; lia).
    assert (0 < 2 ^ Z.of_nat k) by (apply Z.pow_pos_nonneg; lia).
    rewrite !Hfg by lia. reflexivity.
Qed.

(** With at least 2^(k-1) threads, the loop started at stride 2^(k-1)
    leaves in slot 0 the tree-ordered sum of the slots 0 .. 2^k - 1. *)
Lemma reduce_tree_sum (n k : nat) (temp : Z -> F) :
  2 ^ Z.of_nat k <= 2 * Z.of_nat n ->
  reduce n (Z.quot (2 ^ Z.of_nat k) 2) temp 0 = tree_sum k temp 0.
Proof.
  revert temp. induction k as [|k IH]; intros temp Hn.
  - change (Z.quot (2 ^ Z.of_nat 0) 2) with 0.
    rewrite reduce_stop by lia. reflexivity.
  - assert (Hp : 2 ^ Z.of_nat (S k) = 2 * 2 ^ Z.of_nat k)
      by (rewrite Nat2Z.inj_succ, Z.pow_succ_r; lia).
    assert (Hpos : 0 < 2 ^ Z.of_nat k) by (apply Z.pow_pos_nonneg; lia).
    assert (Hq : Z.quot (2 ^ Z.of_nat (S k)) 2 = 2 ^ Z.of_nat k).
    { rewrite Hp, Z.mul_comm. apply Z.quot_mul. lia. }
    rewrite Hq, reduce_step by lia.
    rewrite IH by lia. cbn [tree_sum].
    apply tree_sum_ext. intros j Hj.
    rewrite run_reduce_thread by lia.
    zcases.
Qed.

Lemma reduce_64_tree (temp : Z -> F) : reduce 128 64 temp 0 = tree_sum 7 temp 0.
Proof. apply (reduce_tree_sum 128 7). cbn. lia. Qed.

(** The array after the loading phase and after the squared-deviation phase. *)
Lemma temp_loaded_slot (pInput : Z -> F) (bid : Z) (temp0 : Z -> F) (t : Z) :
  0 <= bid < 2 ^ 23 -> 0 <= t < 128 ->
  temp_loaded 128 pInput bid temp0 t
  = fadd (vector pInput bid t) (vector pInput bid (t + 128)).
Proof.
  intros Hb Ht. unfold temp_loaded, store_partial.
  rewrite (run_threads_own 128 (fun tx => fadd (value0 pInput bid tx) (value1 pInput bid tx))).
  rewrite <- value0_vector, <- value1_vector by assumption. zcases.
Qed.

Lemma temp_sqdev_slot (pInput : Z -> F) (bid : Z) (temp0 : Z -> F) (t : Z) :
  0 <= bid < 2 ^ 23 -> 0 <= t < 128 ->
  temp_sqdev 128 pInput bid temp0 t
  = sqdev (vector pInput bid t) (vector pInput bid (t + 128))
      (block_mean 128 pInput bid temp0).
Proof.
  intros Hb Ht. unfold temp_sqdev, store_sqdev.
  rewrite (run_threads_own 128
             (fun tx => sqdev (value0 pInput bid tx) (value1 pInput bid tx)
                          (block_mean 128 pInput bid temp0))).
  rewrite <- value0_vector, <- value1_vector by assumption. zcases.
Qed.

End KernelFacts.

(** ** Race freedom between two barriers

    The phases that touch the shared array give the same array in whatever
    order the threads of the block are run: a thread writes its own slot
    only, and the slots it reads are not written by another thread before
    the next barrier. *)

Section ScheduleFacts.
Context {F : Type} `{FloatOps F}.

Lemma run_schedule_snoc {S : Type} (sched : list Z) (tx : Z) (body : Z -> S -> S) (s : S) :
  run_schedule (sched ++ [tx]) body s = body tx (run_schedule sched body s).
Proof. unfold run_schedule. now rewrite fold_left_app. Qed.

Lemma existsb_eqb_In (i : Z) (l : list Z) : existsb (Z.eqb i) l = true <-> In i l.
Proof.
  rewrite existsb_exists. split.
  - intros (x & Hx & E). apply Z.eqb_eq in E. now subst.
  - intros Hi. exists i. split; [assumption|apply Z.eqb_refl].
Qed.

Lemma existsb_eqb_notin (i : Z) (l : list Z) : ~ In i l -> existsb (Z.eqb i) l = false.
Proof.
  intros Hn. destruct (existsb (Z.eqb i) l) eqn:E; [|reflexivity].
  apply existsb_eqb_In in E. contradiction.
Qed.

Lemma existsb_eqb_perm (i : Z) (l l' : list Z) :
  Permutation l l' -> existsb (Z.eqb i) l = existsb (Z.eqb i) l'.
Proof.
  intros Hp. destruct (existsb (Z.eqb i) l') eqn:E.
  - apply existsb_eqb_In. apply existsb_eqb_In in E.
    apply Permutation_in with (l := l'); [now apply Permutation_sym|assumption].
  - destruct (existsb (Z.eqb i) l) eqn:E'; [|reflexivity].
    apply existsb_eqb_In in E'. apply (Permutation_in _ Hp) in E'.
    apply existsb_eqb_In in E'. congruence.
Qed.

Lemma run_schedule_own (sched : list Z) (val : Z -> F) (s : Z -> F) (i : Z) :
  run_schedule sched (fun tx t => upd t tx (val tx)) s i
  = if existsb (Z.eqb i) sched then val i else s i.
Proof.
  induction sched as [|tx sched IH] using rev_ind; [reflexivity|].
  rewrite run_schedule_snoc, existsb_app. cbn [existsb]. rewrite orb_false_r.
  unfold upd at 1. rewrite IH.
  destruct (Z.eqb_spec i tx) as [->|Hne].
  - now rewrite orb_true_r.
  - now rewrite orb_false_r.
Qed.

Lemma run_schedule_reduce_thread (sched : list Z) (stride : Z) (temp : Z -> F) (i : Z) :
  List.NoDup sched -> (forall tx, In tx sched -> 0 <= tx) -> 0 <= stride ->
  run_schedule sched (reduce_thread stride) temp i
  = if existsb (Z.eqb i) sched && (i <? stride)
    then fadd (temp i) (temp (i + stride)) else temp i.
Proof.
  intros Hnd Hpos Hs. revert i.
  induction sched as [|tx sched IH] using rev_ind; intros i; [reflexivity|].
  apply NoDup_app_remove_r in Hnd as Hnd'.
  assert (Hnotin : ~ In tx sched).
  { intros Hin. apply NoDup_remove_2 in Hnd. rewrite app_nil_r in Hnd. contradiction. }
  assert (Htx : 0 <= tx) by (apply Hpos, in_or_app; right; now left).
  assert (IH' : forall j, run_schedule sched (reduce_thread stride) temp j
                  = if existsb (Z.eqb j) sched && (j <? stride)
                    then fadd (temp j) (temp (j + stride)) else temp j).
  { apply IH; [assumption|]. intros k Hk. apply Hpos, in_or_app. now left. }
  rewrite run_schedule_snoc, existsb_app. cbn [existsb]. rewrite orb_false_r.
  unfold reduce_thread at 1.
  destruct (Z.ltb_spec tx stride) as [Hlt|Hge].
  - destruct (Z.eqb_spec i tx) as [->|Hne].
    + rewrite upd_eq, !IH', orb_true_r.
      rewrite (existsb_eqb_notin tx sched Hnotin). cbn [andb].
      replace (tx + stride <? stride) with false by (symmetry; apply Z.ltb_ge; lia).
      rewrite andb_false_r.
      replace (tx <? stride) with true by (symmetry; apply Z.ltb_lt; lia).
      reflexivity.
    + rewrite upd_neq by assumption. now rewrite IH', orb_false_r.
  - rewrite IH'. destruct (Z.eqb_spec i tx) as [->|Hne].
    + rewrite orb_true_r, (existsb_eqb_notin tx sched Hnotin). cbn [andb].
      replace (tx <? stride) with false by (symmetry; apply Z.ltb_ge; lia).
      reflexivity.
    + now rewrite orb_false_r.
Qed.

Lemma thread_ids_NoDup (n : nat) : List.NoDup (thread_ids n).
Proof.
  unfold thread_ids. apply Finite.Injective_map_NoDup; [|apply seq_NoDup].
  intros a b. apply Nat2Z.inj.
Qed.

Lemma thread_ids_nonneg (n : nat) (tx : Z) : In tx (thread_ids n) -> 0 <= tx.
Proof. unfold thread_ids. rewrite in_map_iff. intros (k & <- & _). lia. Qed.

(** A reduction step run in any order of the threads. *)
Lemma reduce_step_any_order (n : nat) (sched : list Z) (stride : Z) (temp : Z -> F) (i : Z) :
  Permutation sched (thread_ids n) -> 0 <= stride ->
  run_schedule sched (reduce_thread stride) temp i
  = run_threads n (reduce_thread stride) temp i.
Proof.
  intros Hp Hs. unfold run_threads.
  rewrite !run_schedule_reduce_thread; try assumption.
  - now rewrite (existsb_eqb_perm i _ _ Hp).
  - apply thread_ids_NoDup.
  - apply thread_ids_nonneg.
  - apply (Permutation_NoDup (Permutation_sym Hp)), thread_ids_NoDup.
  - intros tx Htx. apply (thread_ids_nonneg n), (Permutation_in _ Hp Htx).
Qed.

(** The two phases that fill the shared array, run in any order. *)
Lemma fill_any_order (n : nat) (sched : list Z) (val : Z -> F) (s : Z -> F) (i : Z) :
  Permutation sched (thread_ids n) ->
  run_schedule sched (fun tx t => upd t tx (val tx)) s i
  = run_threads n (fun tx t => upd t tx (val tx)) s i.
Proof.
  intros Hp. unfold run_threads. rewrite !run_schedule_own.
  now rewrite (existsb_eqb_perm i _ _ Hp).
Qed.

End ScheduleFacts.

(** ** Sums *)

Section SumFacts.
Context {F : Type} `{ExactArith F}.

Lemma fsum_ext (n : nat) (f g : Z -> F) :
  (forall i, 0 <= i < Z.of_nat n -> f i = g i) -> fsum n f = fsum n g.
Proof.
  induction n as [|n IH]; intros Hfg; [reflexivity|].
  cbn [fsum]. rewrite IH, Hfg; [reflexivity|lia|].
  intros i Hi. apply Hfg. lia.
Qed.

Lemma fadd_0_r (a : F) : fadd a fzero = a.
Proof. rewrite fadd_comm. apply fadd_0_l. Qed.

Lemma fadd_swap (a b c d : F) :
  fadd (fadd a b) (fadd c d) = fadd (fadd a c) (fadd b d).
Proof.
  rewrite <- (fadd_assoc a b), (fadd_assoc b c d), (fadd_comm b c).
  now rewrite <- (fadd_assoc c b d), (fadd_assoc a c).
Qed.

Lemma fsum_fadd (n : nat) (f g : Z -> F) :
  fsum n (fun i => fadd (f i) (g i)) = fadd (fsum n f) (fsum n g).
Proof.
  induction n as [|n IH]; cbn [fsum].
  - now rewrite fadd_0_l.
  - rewrite IH. apply fadd_swap.
Qed.

Lemma fsum_plus (n m : nat) (f : Z -> F) :
  fsum (n + m) f = fadd (fsum n f) (fsum m (fun i => f (i + Z.of_nat n))).
Proof.
  induction m as [|m IH].
  - rewrite Nat.add_0_r. cbn [fsum]. now rewrite fadd_0_r.
  - rewrite Nat.add_succ_r. cbn [fsum]. rewrite IH, <- fadd_assoc.
    do 3 f_equal. lia.
Qed.

(** Folding the upper half of [2 * n] values onto the lower half. *)
Lemma fsum_halves (n : nat) (f : Z -> F) :
  fsum n (fun i => fadd (f i) (f (i + Z.of_nat n))) = fsum (n + n) f.
Proof. now rewrite fsum_fadd, fsum_plus. Qed.

Lemma tree_sum_fsum (k : nat) (f : Z -> F) : tree_sum k f 0 = fsum (2 ^ k) f.
Proof.
  revert f. induction k as [|k IH]; intros f.
  - cbn. now rewrite fadd_0_l.
  - cbn [tree_sum]. rewrite IH.
    replace (2 ^ Z.of_nat k) with (Z.of_nat (2 ^ k)) by (rewrite Nat2Z.inj_pow; reflexivity).
    rewrite fsum_halves. f_equal. cbn [Nat.pow]. lia.
Qed.

Lemma reduce_64_fsum (temp : Z -> F) : reduce 128 64 temp 0 = fsum 128 temp.
Proof. rewrite reduce_64_tree. apply (tree_sum_fsum 7). Qed.

Lemma temp_sum_fsum (pInput : Z -> F) (bid : Z) (temp0 : Z -> F) :
  0 <= bid < 2 ^ 23 ->
  temp_sum 128 pInput bid temp0 0 = fsum 256 (vector pInput bid).
Proof.
  intros Hb. unfold temp_sum. rewrite reduce_64_fsum.
  change 256%nat with (128 + 128)%nat.
  rewrite <- (fsum_halves 128 (vector pInput bid)).
  apply fsum_ext. intros i Hi. apply temp_loaded_slot; [assumption|lia].
Qed.

Lemma block_mean_spec (pInput : Z -> F) (bid : Z) (temp0 : Z -> F) :
  0 <= bid < 2 ^ 23 ->
  block_mean 128 pInput bid temp0 = mean_spec (vector pInput bid).
Proof. intros Hb. unfold block_mean, mean_spec. now rewrite temp_sum_fsum. Qed.

Lemma block_var_spec (pInput : Z -> F) (bid : Z) (temp0 : Z -> F) :
  0 <= bid < 2 ^ 23 ->
  block_var 128 pInput bid temp0 = var_spec (vector pInput bid).
Proof.
  intros Hb. unfold block_var, var_spec, temp_sqsum. rewrite reduce_64_fsum.
  f_equal. change 256%nat with (128 + 128)%nat.
  rewrite <- (fsum_halves 128
                (fun i => fmul (fsub (vector pInput bid i) (mean_spec (vector pInput bid)))
                            (fsub (vector pInput bid i) (mean_spec (vector pInput bid))))).
  apply fsum_ext. intros i Hi.
  rewrite temp_sqdev_slot by (assumption || lia).
  now rewrite block_mean_spec.
Qed.

End SumFacts.

(** ** What a launch writes *)

Section OutputFacts.
Context {F : Type} `{FloatOps F}.

Lemma run_store_output (n : nat) (pInput : Z -> F) (epsilon : F) (bid : Z)
    (temp0 pOutput : Z -> F) (a : Z) :
  0 <= bid < 2 ^ 23 -> (n <= 128)%nat ->
  run_threads n
    (store_output pInput epsilon bid
       (block_mean 128 pInput bid temp0) (block_var 128 pInput bid temp0)) pOutput a
  = if ((bid * 256 <=? a) && (a <? bid * 256 + Z.of_nat n))
       || ((bid * 256 + 128 <=? a) && (a <? bid * 256 + 128 + Z.of_nat n))
    then normalised pInput epsilon bid temp0 (a - bid * 256)
    else pOutput a.
Proof.
  intros Hb. induction n as [|n IH]; intros Hn.
  - cbn. zcases.
  - rewrite run_threads_S. unfold store_output at 1.
    rewrite index_128_small, index_small, value0_vector, value1_vector by lia.
    unfold upd. rewrite IH by lia. unfold normalised.
    destruct (Z.eqb_spec a (bid * 256 + (Z.of_nat n + 128))) as [->|Hne1].
    + replace (bid * 256 + (Z.of_nat n + 128) - bid * 256) with (Z.of_nat n + 128) by lia.
      zcases.
    + destruct (Z.eqb_spec a (bid * 256 + Z.of_nat n)) as [->|Hne0].
      * replace (bid * 256 + Z.of_nat n - bid * 256) with (Z.of_nat n) by lia.
        zcases.
      * zcases.
Qed.

(** A block writes the 256 elements of its vector and nothing else. *)
Lemma block_output (pInput : Z -> F) (epsilon : F) (bid : Z) (temp0 pOutput : Z -> F)
    (a : Z) :
  0 <= bid < 2 ^ 23 ->
  layerNormKernelV1_block 128 pInput epsilon bid temp0 pOutput a
  = if (bid * 256 <=? a) && (a <? bid * 256 + 256)
    then normalised pInput epsilon bid temp0 (a - bid * 256)
    else pOutput a.
Proof.
  intros Hb. unfold layerNormKernelV1_block.
  rewrite run_store_output by (assumption || lia). zcases.
Qed.

Lemma grid_S (g : nat) (smem : Z -> Z -> F) (pInput pOutput : Z -> F) (epsilon : F) :
  layerNormKernelV1 (S g) 128 smem pInput pOutput epsilon
  = layerNormKernelV1_block 128 pInput epsilon (Z.of_nat g) (smem (Z.of_nat g))
      (layerNormKernelV1 g 128 smem pInput pOutput epsilon).
Proof.
  unfold layerNormKernelV1. rewrite seq_S, map_app, fold_left_app. reflexivity.
Qed.

(** Outside the first [gridDim] vectors the output array is left as it was. *)
Lemma grid_output_outside (g : nat) (smem : Z -> Z -> F) (pInput pOutput : Z -> F)
    (epsilon : F) (a : Z) :
  Z.of_nat g <= 2 ^ 23 -> ~ (0 <= a < Z.of_nat g * 256) ->
  layerNormKernelV1 g 128 smem pInput pOutput epsilon a = pOutput a.
Proof.
  induction g as [|g IH]; intros Hg Ha; [reflexivity|].
  rewrite grid_S, block_output by lia. rewrite IH by lia. zcases.
Qed.

(** Element [i] of vector [v] is the one written by block [v]. *)
Lemma grid_output_inside (g : nat) (smem : Z -> Z -> F) (pInput pOutput : Z -> F)
    (epsilon : F) (v i : Z) :
  Z.of_nat g <= 2 ^ 23 -> 0 <= v < Z.of_nat g -> 0 <= i < 256 ->
  layerNormKernelV1 g 128 smem pInput pOutput epsilon (v * 256 + i)
  = normalised pInput epsilon v (smem v) i.
Proof.
  induction g as [|g IH]; intros Hg Hv Hi; [lia|].
  rewrite grid_S, block_output by lia.
  destruct (Z.eq_dec v (Z.of_nat g)) as [->|Hne].
  - replace (Z.of_nat g * 256 + i - Z.of_nat g * 256) with i by lia. zcases.
  - rewrite IH by lia. zcases.
Qed.

End OutputFacts.

(** ** The kernel in exact arithmetic and in binary32 *)

#[export] Instance R_exact : ExactArith R.
Proof.
  split; cbn; intros.
  - apply eq_sym, Rplus_assoc.
  - apply Rplus_comm.
  - apply Rplus_0_l.
  - reflexivity.
Qed.

Lemma fsum_const_R (n : nat) (c : R) :
  fsum (F:=R) n (fun _ => c) = (IZR (Z.of_nat n) * c)%R.
Proof.
  induction n as [|n IH].
  - change (0 = IZR 0 * c)%R. ring.
  - cbn [fsum]. rewrite IH, Nat2Z.inj_succ, succ_IZR.
    change (IZR (Z.of_nat n) * c + c = (IZR (Z.of_nat n) + 1) * c)%R. ring.
Qed.

(** The reference formula gives 0 on a constant vector. *)
Lemma layerNorm_spec_const_R (c eps : R) (i : Z) :
  layerNorm_spec (F:=R) (fun _ => c) eps i = 0%R.
Proof.
  assert (Hm : mean_spec (F:=R) (fun _ => c) = c).
  { unfold mean_spec. rewrite fsum_const_R.
    change (IZR 256 * c / IZR 256 = c)%R. field. }
  unfold layerNorm_spec. rewrite Hm. cbn. unfold Rdiv, Rminus.
  rewrite Rplus_opp_r. apply Rmult_0_l.
Qed.

Lemma SF2R_FLT_MAX : SF2R FLT_MAX = IZR (16777215 * 2 ^ 104).
Proof. reflexivity. Qed.

Lemma SF2R_opp_FLT_MAX : SF2R (SFopp FLT_MAX) = (- IZR (16777215 * 2 ^ 104))%R.
Proof. cbn -[Z.pow Z.mul]. rewrite <- opp_IZR. f_equal. Qed.

(** C1, exact arithmetic. For a launch of [gridDim] blocks of 128 threads,
    element [i] of vector [v] of the output equals
    (x[v,i] - mean[v]) / sqrt(var[v] + epsilon), with mean[v] the arithmetic
    mean of the 256 elements of vector [v] and var[v] their population
    variance (divisor 256). *)
Theorem layerNormKernelV1_exact {F : Type} `{ExactArith F} (gridDim : nat)
    (smem : Z -> Z -> F) (pInput pOutput : Z -> F) (eps : F) (v i : Z) :
  Z.of_nat gridDim <= 2 ^ 23 -> 0 <= v < Z.of_nat gridDim -> 0 <= i < 256 ->
  layerNormKernelV1 gridDim 128 smem pInput pOutput eps (v * 256 + i)
  = layerNorm_spec (vector pInput v) eps i.
Proof.
  intros Hg Hv Hi. rewrite grid_output_inside by assumption.
  unfold normalised, layerNorm_spec.
  rewrite block_mean_spec, block_var_spec by lia.
  apply rsqrtf_exact.
Qed.

Lemma layerNormKernelV1_exact_witness :
  Z.of_nat 2 <= 2 ^ 23 /\ 0 <= 1 < Z.of_nat 2 /\ 0 <= 5 < 256 /\
  layerNormKernelV1 2 128 (fun _ _ => 0%R) (fun a => IZR a) (fun _ => 0%R) 1%R (1 * 256 + 5)
  = layerNorm_spec (vector (fun a => IZR a) 1) 1%R 5.
Proof.
  assert (H1 : Z.of_nat 2 <= 2 ^ 23) by (cbn; lia).
  assert (H2 : 0 <= 1 < Z.of_nat 2) by (cbn; lia).
  assert (H3 : 0 <= 5 < 256) by lia.
  refine (conj H1 (conj H2 (conj H3 _))).
  exact (layerNormKernelV1_exact (F:=R) 2 (fun _ _ => 0%R) (fun a => IZR a)
           (fun _ => 0%R) 1%R 1 5 H1 H2 H3).
Defined.

(** Whatever [rsqrtf] returns, its product with an infinite deviation is not
    a finite number. *)
Lemma infinite_deviation_not_finite (s : bool) (r : spec_float) :
  is_finite (fmul (S754_infinity s) r) = false.
Proof. destruct r; reflexivity. Qed.

(** C1, binary32. The equality of C1 does not hold for every finite input in
    binary32: on a vector whose 256 elements are all [FLT_MAX], with
    epsilon = 1.0e-5f, the partial sums overflow, the deviation
    [value0 - mean] is minus infinity and the kernel stores NaN, where the
    formula gives the number 0. *)
Lemma layerNormKernelV1_overflow :
  is_finite FLT_MAX = true
  /\ is_finite (b32_of_bits float_1em5) = true
  /\ fsub (value0 x_FLT_MAX 0 0) (block_mean 128 x_FLT_MAX 0 zeros) = S754_infinity true
  /\ layerNormKernelV1 1 128 (fun _ => zeros) x_FLT_MAX zeros (b32_of_bits float_1em5)
       (0 * 256 + 0) = S754_nan
  /\ layerNorm_spec (vector (fun a => SF2R (x_FLT_MAX a)) 0)
       (SF2R (b32_of_bits float_1em5)) 0 = 0%R.
Proof.
  split; [reflexivity|].
  split; [vm_compute; reflexivity|].
  split; [vm_compute; reflexivity|].
  split; [vm_compute; reflexivity|].
  apply (layerNorm_spec_const_R (SF2R FLT_MAX)).
Qed.

(** C4, exact arithmetic. The loop of a reduction pass takes the strides 64, 32,
    16, 8, 4, 2, 1 and stops; in exact arithmetic it leaves in slot 0 the
    sum of the 128 initial slots, which in the first pass is the sum of the
    256 elements of the vector, and mean = that sum / 256. *)
Theorem reduction_slot0_sum {F : Type} `{ExactArith F} (pInput : Z -> F) (v : Z)
    (temp0 temp : Z -> F) :
  0 <= v < 2 ^ 23 ->
  reduce 128 64 temp
  = fold_left (fun t stride => run_threads 128 (reduce_thread stride) t)
      [64; 32; 16; 8; 4; 2; 1] temp
  /\ reduce 128 64 temp 0 = fsum 128 temp
  /\ temp_sum 128 pInput v temp0 0 = fsum 256 (vector pInput v)
  /\ block_mean 128 pInput v temp0 = fdiv (fsum 256 (vector pInput v)) (i2f 256).
Proof.
  intros Hv. split; [apply reduce_64_steps|].
  split; [apply reduce_64_fsum|].
  split; [now apply temp_sum_fsum|].
  now apply block_mean_spec.
Qed.

Lemma reduction_slot0_sum_witness :
  0 <= 3 < 2 ^ 23
  /\ reduce 128 64 (fun a => IZR a) 0 = fsum 128 (fun a => IZR a)
  /\ block_mean 128 (fun a => IZR a) 3 (fun _ => 0%R)
     = fdiv (fsum 256 (vector (fun a => IZR a) 3)) (i2f 256).
Proof.
  assert (H1 : 0 <= 3 < 2 ^ 23) by lia.
  pose proof (reduction_slot0_sum (F:=R) (fun a => IZR a) 3 (fun _ => 0%R)
                (fun a => IZR a) H1) as (_ & Hs & _ & Hm).
  exact (conj H1 (conj Hs Hm)).
Defined.

(** C4, binary32. Slot 0 need not be the sum in binary32: from finite slots
    the tree reduction
    can end in NaN, where the sum of the 128 values is 0, both exactly and
    when they are added from left to right in binary32. *)
Lemma reduction_slot0_nan :
  forallb (fun i => is_finite (temp_cancelling i)) (thread_ids 128) = true
  /\ reduce 128 64 temp_cancelling 0 = S754_nan
  /\ fsum 128 temp_cancelling = S754_zero false
  /\ fsum 128 (fun i => SF2R (temp_cancelling i)) = 0%R.
Proof.
  split; [vm_compute; reflexivity|].
  split; [vm_compute; reflexivity|].
  split; [vm_compute; reflexivity|].
  cbn [fsum].
  repeat match goal with
    | |- context [temp_cancelling ?z] =>
        let r := eval vm_compute in (temp_cancelling z) in
        change (temp_cancelling z) with r
    end.
  change (S754_finite false 16777215 104) with FLT_MAX.
  change (S754_finite true 16777215 104) with (SFopp FLT_MAX).
  rewrite !SF2R_FLT_MAX, !SF2R_opp_FLT_MAX.
  generalize (IZR (16777215 * 2 ^ 104)). intros c. cbn. lra.
Qed.

(** On the vector alternating between 4096 and 4097 the kernel finds the
    variance 1/4 in binary32, whereas E[x^2] - E[x]^2 evaluates to 0: the
    kernel's variance is not the single-pass one. *)
Lemma two_pass_not_single_pass :
  block_var 128 x_large_mean 0 zeros = S754_finite false 8388608 (-25)
  /\ var_single_pass (vector x_large_mean 0) = S754_zero false.
Proof. split; vm_compute; reflexivity. Qed.

(** C5. The variance is computed in two passes. With m the mean left by the
    first pass, thread [t] stores (x[t] - m) * (x[t] - m)
    + (x[t+128] - m) * (x[t+128] - m) into its slot, the 128 slots are added
    up by the same loop (strides 64 down to 1, slot 0 receives the
    tree-ordered sum) and the result is divided by 256. So the variance is a
    function of the deviations x[j] - m alone, and in exact arithmetic it is
    the mean of the squared deviations from the mean. It is not
    E[x^2] - E[x]^2: on the vector alternating between 4096 and 4097 the two
    differ in binary32. *)
Theorem variance_two_pass {F : Type} `{FloatOps F} (pInput pInput' : Z -> F) (v v' : Z)
    (temp0 temp0' : Z -> F) (t : Z) :
  0 <= v < 2 ^ 23 -> 0 <= v' < 2 ^ 23 -> 0 <= t < 128 ->
  let x := fun j => pInput (v * 256 + j) in
  let m := block_mean 128 pInput v temp0 in
  let x' := fun j => pInput' (v' * 256 + j) in
  let m' := block_mean 128 pInput' v' temp0' in
  m = fdiv (tree_sum 7 (fun t => fadd (x t) (x (t + 128))) 0) (i2f 256)
  /\ temp_sqdev 128 pInput v temp0 t
     = fadd (fmul (fsub (x t) m) (fsub (x t) m))
            (fmul (fsub (x (t + 128)) m) (fsub (x (t + 128)) m))
  /\ temp_sqsum 128 pInput v temp0
     = fold_left (fun a stride => run_threads 128 (reduce_thread stride) a)
         [64; 32; 16; 8; 4; 2; 1] (temp_sqdev 128 pInput v temp0)
  /\ block_var 128 pInput v temp0
     = fdiv (tree_sum 7
               (fun t => fadd (fmul (fsub (x t) m) (fsub (x t) m))
                              (fmul (fsub (x (t + 128)) m) (fsub (x (t + 128)) m))) 0)
            (i2f 256)
  /\ ((forall j, 0 <= j < 256 -> fsub (x' j) m' = fsub (x j) m) ->
      block_var 128 pInput' v' temp0' = block_var 128 pInput v temp0)
  /\ (ExactArith F ->
      block_var 128 pInput v temp0
      = fdiv (fsum 256 (fun j => fmul (fsub (x j) (fdiv (fsum 256 x) (i2f 256)))
                                      (fsub (x j) (fdiv (fsum 256 x) (i2f 256)))))
             (i2f 256))
  /\ block_var 128 x_large_mean 0 zeros <> var_single_pass (vector x_large_mean 0).
Proof.
  intros Hv Hv' Ht x m x' m'.
  assert (Hvar : forall (p : Z -> F) (w : Z) (s0 : Z -> F), 0 <= w < 2 ^ 23 ->
            block_var 128 p w s0
            = fdiv (tree_sum 7
                      (fun t => fadd (fmul (fsub (p (w * 256 + t)) (block_mean 128 p w s0))
                                           (fsub (p (w * 256 + t)) (block_mean 128 p w s0)))
                                     (fmul (fsub (p (w * 256 + (t + 128)))
                                                 (block_mean 128 p w s0))
                                           (fsub (p (w * 256 + (t + 128)))
                                                 (block_mean 128 p w s0)))) 0)
                   (i2f 256)).
  { intros p w s0 Hw. unfold block_var, temp_sqsum. rewrite reduce_64_tree.
    apply (f_equal (fun s => fdiv s (i2f 256))).
    apply tree_sum_ext. intros j Hj. change (2 ^ Z.of_nat 7) with 128 in Hj.
    rewrite temp_sqdev_slot by assumption. reflexivity. }
  split.
  { unfold m, block_mean, temp_sum. rewrite reduce_64_tree.
    apply (f_equal (fun s => fdiv s (i2f 256))).
    apply tree_sum_ext. intros j Hj. change (2 ^ Z.of_nat 7) with 128 in Hj.
    rewrite temp_loaded_slot by assumption. reflexivity. }
  split; [rewrite temp_sqdev_slot by assumption; reflexivity|].
  split; [apply reduce_64_steps|].
  split; [exact (Hvar pInput v temp0 Hv)|].
  split; [|split].
  - intros Hdev. rewrite (Hvar pInput' v' temp0' Hv'), (Hvar pInput v temp0 Hv).
    apply (f_equal (fun s => fdiv s (i2f 256))).
    apply tree_sum_ext. intros j Hj. change (2 ^ Z.of_nat 7) with 128 in Hj.
    pose proof (Hdev j) as E0. pose proof (Hdev (j + 128)) as E1.
    unfold x, x', m, m' in E0, E1. cbn beta in E0, E1.
    rewrite E0, E1 by lia. reflexivity.
  - intros Hexact. apply (block_var_spec pInput v temp0 Hv).
  - destruct two_pass_not_single_pass as [Ek Es]. rewrite Ek, Es. discriminate.
Qed.

Lemma variance_two_pass_witness :
  0 <= 2 < 2 ^ 23 /\ 0 <= 0 < 2 ^ 23 /\ 0 <= 7 < 128
  /\ block_var 128 x_large_mean 2 zeros
     = fdiv (tree_sum 7
               (fun t => fadd (fmul (fsub (x_large_mean (2 * 256 + t))
                                          (block_mean 128 x_large_mean 2 zeros))
                                    (fsub (x_large_mean (2 * 256 + t))
                                          (block_mean 128 x_large_mean 2 zeros)))
                              (fmul (fsub (x_large_mean (2 * 256 + (t + 128)))
                                          (block_mean 128 x_large_mean 2 zeros))
                                    (fsub (x_large_mean (2 * 256 + (t + 128)))
                                          (block_mean 128 x_large_mean 2 zeros)))) 0)
            (i2f 256).
Proof.
  assert (H1 : 0 <= 2 < 2 ^ 23) by lia.
  assert (H2 : 0 <= 0 < 2 ^ 23) by lia.
  assert (H3 : 0 <= 7 < 128) by lia.
  pose proof (variance_two_pass x_large_mean x_FLT_MAX 2 0 zeros zeros 7 H1 H2 H3)
    as (_ & _ & _ & Hv & _).
  exact (conj H1 (conj H2 (conj H3 Hv))).
Defined.


(** ** Bytes *)

Lemma Z_of_byte_range (b : byte) : 0 <= Z_of_byte b < 256.
Proof.
  unfold Z_of_byte. pose proof (Byte.to_N_bounded b) as Hb.
  split; [apply N2Z.is_nonneg|]. apply N.lt_succ_r in Hb.
  change 256 with (Z.of_N (N.succ 255)). now apply N2Z.inj_lt.
Qed.

Lemma Z_of_byte_of_Z (z : Z) : Z_of_byte (byte_of_Z z) = z mod 256.
Proof.
  unfold Z_of_byte, byte_of_Z.
  assert (Hr : 0 <= z mod 256 < 256) by (apply Z.mod_pos_bound; lia).
  destruct (Byte.of_N (Z.to_N (z mod 256))) as [b|] eqn:E.
  - apply Byte.to_of_N in E. rewrite E. apply Z2N.id. lia.
  - apply Byte.of_N_None_iff in E.
    assert (Z.to_N (z mod 256) < 256)%N; [|lia].
    change 256%N with (Z.to_N 256). apply Z2N.inj_lt; lia.
Qed.

Lemma le_value_le_bytes (n : nat) (z : Z) :
  le_value (le_bytes n z) = z mod 256 ^ Z.of_nat n.
Proof.
  revert z. induction n as [|n IH]; intros z.
  - cbn. now rewrite Z.mod_1_r.
  - cbn [le_bytes le_value]. rewrite Z_of_byte_of_Z, IH.
    rewrite Nat2Z.inj_succ, Z.pow_succ_r by lia.
    rewrite Z.rem_mul_r; [reflexivity|lia|].
    apply Z.pow_pos_nonneg; lia.
Qed.

Lemma le_value_range (bs : list byte) :
  0 <= le_value bs < 256 ^ Z.of_nat (length bs).
Proof.
  induction bs as [|b bs IH].
  - cbn. lia.
  - cbn [le_value length]. rewrite Nat2Z.inj_succ, Z.pow_succ_r by lia.
    pose proof (Z_of_byte_range b). lia.
Qed.

Lemma load_float_wf (data : Z -> byte) : float_wf (load_float data).
Proof. unfold float_wf, load_float. apply (le_value_range (map data [0; 1; 2; 3])). Qed.

(** The literal [1.0e-5f]: its pattern is a binary32 number, the one nearest
    to 10^-5 (the distance is at most half a unit in the last place). *)
Lemma float_1em5_value :
  float_wf float_1em5
  /\ b32_of_bits float_1em5 = S754_finite false 10995116 (-40)
  /\ 2 * Z.abs (10995116 * 10 ^ 5 - 2 ^ 40) <= 10 ^ 5.
Proof. split; [unfold float_wf, float_1em5; lia|]. split; [reflexivity|]. cbn. lia. Qed.

(** ** Serialization *)

Lemma memcpy_inside (dst src : Z -> byte) (n i : Z) :
  0 <= i < n -> memcpy dst src n i = src i.
Proof. intros Hi. unfold memcpy. zcases. Qed.

Lemma memcpy_outside (dst src : Z -> byte) (n i : Z) :
  ~ 0 <= i < n -> memcpy dst src n i = dst i.
Proof. intros Hi. unfold memcpy. zcases. Qed.

Lemma Configuration_bytes_map (m : Configuration) :
  map (Configuration_bytes m) [0; 1; 2; 3] = le_bytes 4 (epsilon m).
Proof. reflexivity. Qed.

(** Reading back the object representation of a Configuration. *)
Lemma Configuration_of_bytes_memcpy (dst0 dst1 : Z -> byte) (m : Configuration) :
  float_wf (epsilon m) ->
  Configuration_of_bytes
    (memcpy dst0 (memcpy dst1 (Configuration_bytes m) sizeof_Configuration)
       sizeof_Configuration) = m.
Proof.
  intros Hwf. destruct m as [eps]. unfold Configuration_of_bytes. f_equal.
  cbn [map]. unfold sizeof_Configuration.
  rewrite !memcpy_inside by lia.
  change (le_value (le_bytes 4 eps) = eps).
  rewrite le_value_le_bytes. apply Z.mod_small. exact Hwf.
Qed.

(** C7. Serializing a plugin and deserializing the buffer gives a plugin
    with the same Configuration (the same pattern of epsilon), hence the same
    launch, status and device state on [enqueue] and the same memory once the
    stream has completed; the declared size is [sizeof(Configuration)] = 4
    bytes, the four bytes of the one float, and [serialize] leaves the rest
    of the buffer alone. *)
Theorem serialize_deserialize_roundtrip {F : Type} `{FloatOps F} `{FloatRepr F}
    (this : LayerNormPlugin) (name : string) (buffer : Z -> byte) (length : Z)
    (inputDesc outputDesc : Z -> PluginTensorDesc) (inputs outputs : Z -> Z)
    (workspace stream : Z) (dev : Device F) (smem : Z -> Z -> F) :
  float_wf (epsilon (m_ this)) ->
  let this' := deserializePlugin name (serialize this buffer) length in
  let r := enqueue this inputDesc outputDesc inputs outputs workspace stream dev in
  let r' := enqueue this' inputDesc outputDesc inputs outputs workspace stream dev in
  m_ this' = m_ this
  /\ r'.1.1 = r.1.1
  /\ r'.2 = r.2
  /\ cudaStreamSynchronize smem r'.2 = cudaStreamSynchronize smem r.2
  /\ getSerializationSize this = sizeof_Configuration
  /\ sizeof_Configuration = 4
  /\ map (serialize this buffer) [0; 1; 2; 3] = le_bytes 4 (epsilon (m_ this))
  /\ (forall i, ~ 0 <= i < getSerializationSize this -> serialize this buffer i = buffer i).
Proof.
  intros Hwf this' r r'.
  assert (Hm : m_ this' = m_ this).
  { unfold this', deserializePlugin, new_LayerNormPlugin_from_buffer, serialize, WHERE_AM_I.
    cbn [m_]. now apply Configuration_of_bytes_memcpy. }
  assert (Hr : r'.2 = r.2).
  { unfold r, r', enqueue, WHERE_AM_I. cbn [snd]. now rewrite Hm. }
  split; [exact Hm|]. split; [reflexivity|]. split; [exact Hr|].
  split; [now rewrite Hr|]. split; [reflexivity|]. split; [reflexivity|].
  split.
  - unfold serialize, WHERE_AM_I, sizeof_Configuration. cbn [map].
    rewrite !memcpy_inside by lia. apply Configuration_bytes_map.
  - intros i Hi. unfold serialize, WHERE_AM_I. now apply memcpy_outside.
Qed.

Lemma serialize_deserialize_roundtrip_witness :
  float_wf (epsilon (m_ plugin_1em5))
  /\ m_ (deserializePlugin "copy" (serialize plugin_1em5 (fun _ => xff)) 4) = m_ plugin_1em5.
Proof.
  assert (Hwf : float_wf (epsilon (m_ plugin_1em5)))
    by (unfold float_wf, plugin_1em5, new_LayerNormPlugin, WHERE_AM_I, float_1em5;
        cbn [m_ epsilon]; lia).
  split; [exact Hwf|].
  exact (proj1 (serialize_deserialize_roundtrip plugin_1em5 "copy" (fun _ => xff) 4
                  (fun _ => desc_rank3) (fun _ => desc_rank3) (fun _ => 0) (fun _ => 1)
                  0 0 idle_device (fun _ => zeros) Hwf)).
Defined.

(** C10. The deserializing constructor, and so [deserializePlugin], copies the
    first [sizeof(Configuration)] bytes of the buffer whatever the length
    argument is: two buffers that agree on these bytes give the same plugin
    for any two lengths, and epsilon is the pattern held by these bytes. *)
Theorem deserializePlugin_ignores_length (name : string) (buffer buffer' : Z -> byte)
    (length length' : Z) :
  (forall i, 0 <= i < sizeof_Configuration -> buffer i = buffer' i) ->
  deserializePlugin name buffer length = deserializePlugin name buffer' length'
  /\ deserializePlugin name buffer length
     = {| name_ := name; namespace_ := "";
          m_ := {| epsilon := le_value [buffer 0; buffer 1; buffer 2; buffer 3] |} |}.
Proof.
  intros Hagree. unfold sizeof_Configuration in Hagree.
  assert (Hshape : forall b l, deserializePlugin name b l
            = {| name_ := name; namespace_ := "";
                 m_ := {| epsilon := le_value [b 0; b 1; b 2; b 3] |} |}).
  { intros b l.
    unfold deserializePlugin, new_LayerNormPlugin_from_buffer, WHERE_AM_I,
      Configuration_of_bytes, sizeof_Configuration.
    cbn [name_ namespace_ m_ map]. now rewrite !memcpy_inside by lia. }
  split; [|apply Hshape].
  rewrite !Hshape. now rewrite <- !Hagree by lia.
Qed.

Lemma deserializePlugin_ignores_length_witness :
  (forall i, 0 <= i < sizeof_Configuration ->
     (fun _ : Z => x00) i = (fun j : Z => if j <? 4 then x00 else xff) i)
  /\ deserializePlugin "p" (fun _ => x00) 0
     = deserializePlugin "p" (fun j => if j <? 4 then x00 else xff) 1000.
Proof.
  assert (Hagree : forall i, 0 <= i < sizeof_Configuration ->
            (fun _ : Z => x00) i = (fun j : Z => if j <? 4 then x00 else xff) i).
  { unfold sizeof_Configuration. intros i Hi. cbn beta.
    destruct (Z.ltb_spec i 4); [reflexivity|lia]. }
  split; [exact Hagree|].
  exact (proj1 (deserializePlugin_ignores_length "p" (fun _ => x00)
                  (fun j => if j <? 4 then x00 else xff) 0 1000 Hagree)).
Defined.

(** ** Format negotiation *)

(** C6. At position 0 the predicate accepts exactly a float input in linear
    layout; at the output position (the plugin has one output) it accepts
    exactly a type and a format equal to those of position 0. So an output
    type that differs from the input type is rejected, and float/linear on
    both sides is accepted. *)
Theorem supportsFormatCombination_spec (this : LayerNormPlugin) (pos : Z)
    (inOut : Z -> PluginTensorDesc) (nbInputs nbOutputs : Z) :
  0 <= pos < 1 + getNbOutputs this ->
  ((supportsFormatCombination this pos inOut nbInputs nbOutputs).1 = true <->
   if pos =? 0
   then type (inOut 0) = kFLOAT /\ format (inOut 0) = kLINEAR
   else type (inOut pos) = type (inOut 0) /\ format (inOut pos) = format (inOut 0))
  /\ (type (inOut 1) <> type (inOut 0) ->
      (supportsFormatCombination this 1 inOut nbInputs nbOutputs).1 = false)
  /\ (type (inOut 0) = kFLOAT -> format (inOut 0) = kLINEAR ->
      type (inOut 1) = kFLOAT -> format (inOut 1) = kLINEAR ->
      (supportsFormatCombination this 0 inOut nbInputs nbOutputs).1 = true
      /\ (supportsFormatCombination this 1 inOut nbInputs nbOutputs).1 = true).
Proof.
  intros Hpos. unfold getNbOutputs in Hpos.
  unfold supportsFormatCombination, WHERE_AM_I.
  split; [|split].
  - assert (Hcase : pos = 0 \/ pos = 1) by lia.
    destruct Hcase as [-> | ->]; cbn [Z.eqb fst Pos.eqb];
      rewrite andb_true_iff, !bool_decide_eq_true; reflexivity.
  - intros Hne. cbn [Z.eqb fst Pos.eqb].
    apply andb_false_iff. left. now apply bool_decide_eq_false.
  - intros Ht0 Hf0 Ht1 Hf1. cbn [Z.eqb fst Pos.eqb].
    rewrite Ht0, Hf0, Ht1, Hf1. split; reflexivity.
Qed.

Lemma supportsFormatCombination_spec_witness :
  0 <= 1 < 1 + getNbOutputs plugin_1em5
  /\ (supportsFormatCombination plugin_1em5 1
        (fun i => if i =? 0 then desc_rank3 else desc_half) 1 1).1 = false.
Proof.
  assert (Hpos : 0 <= 1 < 1 + getNbOutputs plugin_1em5) by (unfold getNbOutputs; lia).
  split; [exact Hpos|].
  refine (proj1 (proj2 (supportsFormatCombination_spec plugin_1em5 1
                          (fun i => if i =? 0 then desc_rank3 else desc_half) 1 1 Hpos)) _).
  cbn. discriminate.
Defined.



(** ** Dispatch *)

(** C3, the status of [enqueue]. [enqueue] returns the status 0 in every case, whether
    the launch was accepted or not; it returns once the launch has been
    handed to the stream: the object and the device memory are as before,
    the kernel has not been waited for. *)
Theorem enqueue_returns_zero {F : Type} (this : LayerNormPlugin)
    (inputDesc outputDesc : Z -> PluginTensorDesc) (inputs outputs : Z -> Z)
    (workspace stream : Z) (dev : Device F) :
  let nBlock := to_int32 (d_at (dims (inputDesc 0)) 0 * d_at (dims (inputDesc 0)) 1) in
  let launch := {| gridDim := to_uint32 nBlock; blockDim := 128; sharedMem := 0;
                   on_stream := stream; arg_pInput := inputs 0; arg_pOutput := outputs 0;
                   arg_epsilon := epsilon (m_ this) |} in
  enqueue this inputDesc outputDesc inputs outputs workspace stream dev
  = (0, this, cudaLaunchKernel launch dev)
  /\ mem (cudaLaunchKernel launch dev) = mem dev
  /\ (pending (cudaLaunchKernel launch dev) = pending dev ++ [launch]
      \/ pending (cudaLaunchKernel launch dev) = pending dev
         /\ last_error (cudaLaunchKernel launch dev) = cudaErrorInvalidConfiguration).
Proof.
  intros nBlock launch. split; [reflexivity|].
  unfold cudaLaunchKernel. destruct (valid_config launch); cbn [mem pending last_error].
  - split; [reflexivity|]. now left.
  - split; [reflexivity|]. now right.
Qed.

(** C3, a failed launch. A launch failure is not surfaced: for an empty [0, 5, 256] input the grid has no
    block, the launch is refused with an invalid-configuration error and
    nothing is enqueued, yet [enqueue] returns 0. *)
Lemma enqueue_failed_launch_returns_zero :
  let r := enqueue plugin_1em5 (fun _ => desc_empty) (fun _ => desc_empty)
             (fun _ => 0) (fun _ => 1) 0 0 idle_device in
  last_error r.2 = cudaErrorInvalidConfiguration /\ pending r.2 = [] /\ r.1.1 = 0.
Proof. cbv zeta. repeat split. Qed.

Lemma leading_product_rank3 (dm : Dims) (d0 d1 d2 : Z) (rest : list Z) :
  nbDims dm = 3 -> d dm = d0 :: d1 :: d2 :: rest -> leading_product dm = d0 * d1.
Proof.
  intros Hn Hd. unfold leading_product. rewrite Hn, Hd.
  change (Z.to_nat 3 - 1)%nat with 2%nat. cbn [firstn fold_right]. lia.
Qed.

Lemma valid_config_128 (g stream pIn pOut eps : Z) :
  1 <= g <= 2 ^ 23 ->
  valid_config {| gridDim := g; blockDim := 128; sharedMem := 0; on_stream := stream;
                  arg_pInput := pIn; arg_pOutput := pOut; arg_epsilon := eps |} = true.
Proof. intros Hg. unfold valid_config. cbn [gridDim blockDim]. zcases. Qed.

(** The device after [enqueue] for extents [d0, d1, ...] with at most 2^23
    vectors: the launch has been accepted and waits on the stream. *)
Lemma enqueue_accepted {F : Type} (this : LayerNormPlugin)
    (inputDesc outputDesc : Z -> PluginTensorDesc) (inputs outputs : Z -> Z)
    (workspace stream : Z) (dev : Device F) (d0 d1 : Z) (rest : list Z) :
  d (dims (inputDesc 0)) = d0 :: d1 :: rest ->
  1 <= d0 * d1 <= 2 ^ 23 ->
  (enqueue this inputDesc outputDesc inputs outputs workspace stream dev).2
  = {| mem := mem dev;
       pending := pending dev ++
         [{| gridDim := d0 * d1; blockDim := 128; sharedMem := 0; on_stream := stream;
             arg_pInput := inputs 0; arg_pOutput := outputs 0;
             arg_epsilon := epsilon (m_ this) |}];
       last_error := last_error dev |}.
Proof.
  intros Hd Hg. unfold enqueue, WHERE_AM_I, d_at. cbn [snd]. rewrite Hd. cbn [nth].
  rewrite to_int32_small, to_uint32_small by lia.
  unfold cudaLaunchKernel. now rewrite valid_config_128.
Qed.

(** Once the stream of an idle device has completed, the cell at address
    [a] holds what the kernel, run with [d0 * d1] blocks of 128 threads on
    the memory, leaves in [pOutput[a - outputs[0]]]. *)
Lemma enqueue_synchronize_output {F : Type} `{FloatOps F} `{FloatRepr F}
    (this : LayerNormPlugin) (inputDesc outputDesc : Z -> PluginTensorDesc)
    (inputs outputs : Z -> Z) (workspace stream : Z) (dev : Device F)
    (smem : Z -> Z -> F) (d0 d1 : Z) (rest : list Z) (a : Z) :
  d (dims (inputDesc 0)) = d0 :: d1 :: rest ->
  1 <= d0 * d1 <= 2 ^ 23 ->
  pending dev = [] ->
  mem (cudaStreamSynchronize smem
         (enqueue this inputDesc outputDesc inputs outputs workspace stream dev).2) a
  = layerNormKernelV1 (Z.to_nat (d0 * d1)) 128 smem
      (fun i => mem dev (inputs 0 + i)) (fun i => mem dev (outputs 0 + i))
      (of_bits (epsilon (m_ this))) (a - outputs 0).
Proof.
  intros Hd Hg Hidle. rewrite (enqueue_accepted _ _ _ _ _ _ _ _ d0 d1 rest Hd Hg).
  unfold cudaStreamSynchronize. cbn [mem pending]. rewrite Hidle. cbn [app fold_left].
  unfold complete_launch.
  cbn [arg_pOutput arg_pInput arg_epsilon gridDim blockDim]. reflexivity.
Qed.

(** The cells outside the [d0 * d1 * 256] cells from [outputs[0]] on are as
    before. *)
Lemma enqueue_synchronize_outside {F : Type} `{FloatOps F} `{FloatRepr F}
    (this : LayerNormPlugin) (inputDesc outputDesc : Z -> PluginTensorDesc)
    (inputs outputs : Z -> Z) (workspace stream : Z) (dev : Device F)
    (smem : Z -> Z -> F) (d0 d1 : Z) (rest : list Z) (a : Z) :
  d (dims (inputDesc 0)) = d0 :: d1 :: rest ->
  1 <= d0 * d1 <= 2 ^ 23 ->
  pending dev = [] ->
  ~ outputs 0 <= a < outputs 0 + d0 * d1 * 256 ->
  mem (cudaStreamSynchronize smem
         (enqueue this inputDesc outputDesc inputs outputs workspace stream dev).2) a
  = mem dev a.
Proof.
  intros Hd Hg Hidle Ha.
  rewrite (enqueue_synchronize_output _ _ _ _ _ _ _ _ smem d0 d1 rest a Hd Hg Hidle).
  rewrite grid_output_outside by lia. f_equal. lia.
Qed.

(** The cell of element [i] of vector [v], for [v] below [d0 * d1], holds
    the element the kernel computes from the 256 cells of vector [v] from
    [inputs[0]] on. *)
Lemma enqueue_synchronize_inside {F : Type} `{FloatOps F} `{FloatRepr F}
    (this : LayerNormPlugin) (inputDesc outputDesc : Z -> PluginTensorDesc)
    (inputs outputs : Z -> Z) (workspace stream : Z) (dev : Device F)
    (smem : Z -> Z -> F) (d0 d1 : Z) (rest : list Z) (v i : Z) :
  d (dims (inputDesc 0)) = d0 :: d1 :: rest ->
  1 <= d0 * d1 <= 2 ^ 23 ->
  pending dev = [] ->
  0 <= v < d0 * d1 -> 0 <= i < 256 ->
  mem (cudaStreamSynchronize smem
         (enqueue this inputDesc outputDesc inputs outputs workspace stream dev).2)
      (outputs 0 + (v * 256 + i))
  = normalised (fun j => mem dev (inputs 0 + j)) (of_bits (epsilon (m_ this))) v (smem v) i.
Proof.
  intros Hd Hg Hidle Hv Hi.
  rewrite (enqueue_synchronize_output _ _ _ _ _ _ _ _ smem d0 d1 rest _ Hd Hg Hidle).
  replace (outputs 0 + (v * 256 + i) - outputs 0) with (v * 256 + i) by lia.
  apply grid_output_inside; lia.
Qed.

(** From the descriptors to the elements, in exact arithmetic: after
    completion, element [i] of vector [v] of the output buffer is the
    normalised element of the input buffer. *)
Lemma enqueue_synchronize_exact {F : Type} `{ExactArith F} `{FloatRepr F}
    (this : LayerNormPlugin) (inputDesc outputDesc : Z -> PluginTensorDesc)
    (inputs outputs : Z -> Z) (workspace stream : Z) (dev : Device F)
    (smem : Z -> Z -> F) (d0 d1 : Z) (rest : list Z) (v i : Z) :
  d (dims (inputDesc 0)) = d0 :: d1 :: rest ->
  1 <= d0 * d1 <= 2 ^ 23 ->
  pending dev = [] ->
  0 <= v < d0 * d1 -> 0 <= i < 256 ->
  mem (cudaStreamSynchronize smem
         (enqueue this inputDesc outputDesc inputs outputs workspace stream dev).2)
      (outputs 0 + (v * 256 + i))
  = layerNorm_spec (vector (fun j => mem dev (inputs 0 + j)) v)
      (of_bits (epsilon (m_ this))) i.
Proof.
  intros Hd Hg Hidle Hv Hi.
  rewrite (enqueue_synchronize_inside _ _ _ _ _ _ _ _ smem d0 d1 rest v i Hd Hg Hidle Hv Hi).
  unfold normalised, layerNorm_spec.
  rewrite block_mean_spec, block_var_spec by lia.
  apply rsqrtf_exact.
Qed.

(** C2, inputs of rank 3. For an input of rank 3, [d0, d1, 256], with at most 2^23
    vectors, [enqueue] puts on the stream one launch whose grid has
    [d0 * d1] blocks, the product of the leading extents, of 128 threads
    each; thread [t] of block [v] reads the elements [t] and [t + 128] of
    vector [v] and nothing else of the input, and writes the elements [t]
    and [t + 128] of vector [v] of the output and nothing else. *)
Theorem enqueue_launch_geometry {F : Type} `{FloatOps F} (this : LayerNormPlugin)
    (inputDesc outputDesc : Z -> PluginTensorDesc) (inputs outputs : Z -> Z)
    (workspace stream : Z) (dev : Device F) (d0 d1 d2 : Z) (rest : list Z)
    (pInput pInput' pOutput : Z -> F) (eps mean var : F) (v t a : Z) :
  nbDims (dims (inputDesc 0)) = 3 ->
  d (dims (inputDesc 0)) = d0 :: d1 :: d2 :: rest ->
  1 <= d0 * d1 <= 2 ^ 23 ->
  0 <= v < d0 * d1 -> 0 <= t < 128 ->
  leading_product (dims (inputDesc 0)) = d0 * d1
  /\ pending (enqueue this inputDesc outputDesc inputs outputs workspace stream dev).2
     = pending dev ++
       [{| gridDim := d0 * d1; blockDim := 128; sharedMem := 0; on_stream := stream;
           arg_pInput := inputs 0; arg_pOutput := outputs 0;
           arg_epsilon := epsilon (m_ this) |}]
  /\ value0 pInput v t = pInput (v * 256 + t)
  /\ value1 pInput v t = pInput (v * 256 + (t + 128))
  /\ (pInput' (v * 256 + t) = pInput (v * 256 + t) ->
      pInput' (v * 256 + (t + 128)) = pInput (v * 256 + (t + 128)) ->
      store_partial pInput' v t = store_partial pInput v t
      /\ store_sqdev pInput' v mean t = store_sqdev pInput v mean t
      /\ store_output pInput' eps v mean var t = store_output pInput eps v mean var t)
  /\ store_output pInput eps v mean var t pOutput (v * 256 + t)
     = fmul (fsub (pInput (v * 256 + t)) mean) (rsqrtf (fadd var eps))
  /\ store_output pInput eps v mean var t pOutput (v * 256 + (t + 128))
     = fmul (fsub (pInput (v * 256 + (t + 128))) mean) (rsqrtf (fadd var eps))
  /\ (a <> v * 256 + t -> a <> v * 256 + (t + 128) ->
      store_output pInput eps v mean var t pOutput a = pOutput a).
Proof.
  intros Hn Hd Hg Hv Ht.
  assert (Hb : 0 <= v < 2 ^ 23) by lia.
  assert (H0 : forall p : Z -> F, value0 p v t = p (v * 256 + t))
    by (intros p; apply (value0_vector p v t Hb Ht)).
  assert (H1 : forall p : Z -> F, value1 p v t = p (v * 256 + (t + 128)))
    by (intros p; apply (value1_vector p v t Hb Ht)).
  split; [now apply (leading_product_rank3 _ d0 d1 d2 rest)|].
  split.
  { now rewrite (enqueue_accepted _ _ _ _ _ _ _ _ d0 d1 (d2 :: rest) Hd Hg). }
  split; [apply H0|]. split; [apply H1|].
  split.
  { intros E0 E1. unfold store_partial, store_sqdev, store_output.
    rewrite !H0, !H1, E0, E1. repeat split. }
  unfold store_output. rewrite !H0, !H1, index_128_small, index_small by assumption.
  split; [|split].
  - rewrite upd_neq by lia. apply upd_eq.
  - apply upd_eq.
  - intros Ha0 Ha1. now rewrite !upd_neq.
Qed.

Lemma enqueue_launch_geometry_witness :
  nbDims (dims desc_rank3) = 3
  /\ d (dims desc_rank3) = 2 :: 3 :: 256 :: [0; 0; 0; 0; 0]
  /\ 1 <= 2 * 3 <= 2 ^ 23 /\ 0 <= 5 < 2 * 3 /\ 0 <= 7 < 128
  /\ map gridDim
       (pending (enqueue plugin_1em5 (fun _ => desc_rank3) (fun _ => desc_rank3)
                   (fun _ => 0) (fun _ => 1) 0 0 idle_device).2)
     = [leading_product (dims desc_rank3)].
Proof.
  assert (H1 : nbDims (dims desc_rank3) = 3) by reflexivity.
  assert (H2 : d (dims desc_rank3) = 2 :: 3 :: 256 :: [0; 0; 0; 0; 0]) by reflexivity.
  assert (H3 : 1 <= 2 * 3 <= 2 ^ 23) by lia.
  assert (H4 : 0 <= 5 < 2 * 3) by lia.
  assert (H5 : 0 <= 7 < 128) by lia.
  pose proof (enqueue_launch_geometry plugin_1em5 (fun _ => desc_rank3)
                (fun _ => desc_rank3) (fun _ => 0) (fun _ => 1) 0 0 idle_device
                2 3 256 [0; 0; 0; 0; 0] zeros zeros zeros
                (S754_zero false) (S754_zero false) (S754_zero false) 5 7 0
                H1 H2 H3 H4 H5) as (Hl & Hp & _).
  refine (conj H1 (conj H2 (conj H3 (conj H4 (conj H5 _))))).
  rewrite Hp, Hl. reflexivity.
Defined.

(** C2, other ranks. The grid is not the product of the leading extents
    in general: for an input of rank 2, [4, 256], the product of
    the leading extents is 4 but the grid has 4 * 256 = 1024 blocks. *)
Lemma enqueue_rank2_grid :
  leading_product (dims desc_rank2) = 4
  /\ map gridDim
       (pending (enqueue plugin_1em5 (fun _ => desc_rank2) (fun _ => desc_rank2)
                   (fun _ => 0) (fun _ => 1) 0 0 idle_device).2)
     = [1024].
Proof. split; reflexivity. Qed.

(** ** Construction from fields *)

Section CreatePluginFacts.
Variable fc : PluginFieldCollection.

Let parameterMap : gmap string Local := {[ "epsilon"%string := local_epsilon ]}.

Lemma parameterMap_epsilon : parameterMap !! "epsilon"%string = Some local_epsilon.
Proof. apply lookup_singleton_eq. Qed.

Lemma parameterMap_other (s : string) : s <> "epsilon"%string -> parameterMap !! s = None.
Proof. intros Hs. apply lookup_singleton_ne. congruence. Qed.

Lemma createPlugin_step_other (st : option Locals) (i : Z) :
  field_name (fields fc i) <> "epsilon"%string ->
  createPlugin_step parameterMap fc st i = st.
Proof.
  intros Hs. unfold createPlugin_step. destruct st as [locals|]; [|reflexivity].
  now rewrite parameterMap_other.
Qed.

Lemma createPlugin_step_epsilon (locals : Locals) (i : Z) (data : Z -> byte) :
  field_name (fields fc i) = "epsilon"%string ->
  field_data (fields fc i) = Some data ->
  createPlugin_step parameterMap fc (Some locals) i
  = Some {| epsilon_var := load_float data |}.
Proof.
  intros Hs Hd. unfold createPlugin_step.
  now rewrite Hs, parameterMap_epsilon, Hd.
Qed.

Lemma createPlugin_fold_other (l : list Z) (st : option Locals) :
  (forall i, In i l -> field_name (fields fc i) <> "epsilon"%string) ->
  fold_left (createPlugin_step parameterMap fc) l st = st.
Proof.
  revert st. induction l as [|i l IH]; intros st Hl; [reflexivity|].
  cbn [fold_left]. rewrite createPlugin_step_other by (apply Hl; now left).
  apply IH. intros j Hj. apply Hl. now right.
Qed.

Lemma createPlugin_fold_some (l : list Z) (locals : Locals) :
  (forall i, In i l -> field_name (fields fc i) = "epsilon"%string ->
     is_Some (field_data (fields fc i))) ->
  exists locals', fold_left (createPlugin_step parameterMap fc) l (Some locals) = Some locals'.
Proof.
  revert locals. induction l as [|i l IH]; intros locals Hl; [now exists locals|].
  cbn [fold_left].
  destruct (string_dec (field_name (fields fc i)) "epsilon") as [Hs|Hs].
  - destruct (Hl i (or_introl eq_refl) Hs) as [data Hd].
    rewrite (createPlugin_step_epsilon locals i data Hs Hd).
    apply IH. intros j Hj. apply Hl. now right.
  - rewrite createPlugin_step_other by assumption.
    apply IH. intros j Hj. apply Hl. now right.
Qed.

End CreatePluginFacts.

Lemma createPlugin_fold_ext (fc fc' : PluginFieldCollection) (l : list Z)
    (st : option Locals) :
  (forall i, In i l ->
     field_name (fields fc i) = "epsilon"%string
     \/ field_name (fields fc' i) = "epsilon"%string ->
     fields fc' i = fields fc i) ->
  fold_left (createPlugin_step {[ "epsilon"%string := local_epsilon ]} fc') l st
  = fold_left (createPlugin_step {[ "epsilon"%string := local_epsilon ]} fc) l st.
Proof.
  revert st. induction l as [|i l IH]; intros st Hl; [reflexivity|].
  cbn [fold_left].
  assert (Hstep : createPlugin_step {[ "epsilon"%string := local_epsilon ]} fc' st i
                  = createPlugin_step {[ "epsilon"%string := local_epsilon ]} fc st i).
  { destruct (string_dec (field_name (fields fc i)) "epsilon") as [Hs|Hs].
    - unfold createPlugin_step. now rewrite (Hl i (or_introl eq_refl) (or_introl Hs)).
    - destruct (string_dec (field_name (fields fc' i)) "epsilon") as [Hs'|Hs'].
      + unfold createPlugin_step. now rewrite (Hl i (or_introl eq_refl) (or_intror Hs')).
      + now rewrite !createPlugin_step_other. }
  rewrite Hstep. apply IH. intros j Hj. apply Hl. now right.
Qed.

Lemma In_field_indices (n : nat) (i : Z) :
  In i (map Z.of_nat (seq 0 n)) <-> 0 <= i < Z.of_nat n.
Proof.
  rewrite in_map_iff. split.
  - intros (k & <- & Hk). apply in_seq in Hk. lia.
  - intros Hi. exists (Z.to_nat i). split; [lia|]. apply in_seq. lia.
Qed.

Lemma field_indices_split (n k : nat) :
  (k < n)%nat ->
  map Z.of_nat (seq 0 n)
  = map Z.of_nat (seq 0 k) ++ Z.of_nat k :: map Z.of_nat (seq (S k) (n - S k)).
Proof.
  intros Hk. replace n with (k + S (n - S k))%nat at 1 by lia.
  rewrite seq_app, map_app. reflexivity.
Qed.

Lemma createPlugin_fold_none (fc : PluginFieldCollection) (pm : gmap string Local)
    (l : list Z) :
  fold_left (createPlugin_step pm fc) l None = None.
Proof. induction l as [|i l IH]; [reflexivity|exact IH]. Qed.

Lemma createPlugin_step_null (fc : PluginFieldCollection) (st : option Locals) (i : Z) :
  field_name (fields fc i) = "epsilon"%string ->
  field_data (fields fc i) = None ->
  createPlugin_step {[ "epsilon"%string := local_epsilon ]} fc st i = None.
Proof.
  intros Hs Hd. unfold createPlugin_step. destruct st as [locals|]; [|reflexivity].
  rewrite Hs, lookup_singleton_eq, Hd. reflexivity.
Qed.

(** A field named epsilon with null data among the first [nbFields] makes
    [createPlugin] dereference the null pointer. *)
Lemma createPlugin_null_at (name : string) (fc : PluginFieldCollection) (i : Z) :
  0 <= i < nbFields fc ->
  field_name (fields fc i) = "epsilon"%string ->
  field_data (fields fc i) = None ->
  createPlugin name fc = None.
Proof.
  intros Hi Hs Hd. unfold createPlugin.
  rewrite (field_indices_split (Z.to_nat (nbFields fc)) (Z.to_nat i)) by lia.
  rewrite fold_left_app. cbn [fold_left]. rewrite Z2Nat.id by lia.
  rewrite (createPlugin_step_null fc _ i Hs Hd), createPlugin_fold_none. reflexivity.
Qed.

(** C8, fields with data. Provided the fields named epsilon carry data:
    without a field named epsilon the plugin has epsilon = 1.0e-5f, the
    pattern [0x3727C5AC]; with one, epsilon is the pattern held by the data
    of that field (of the last one if there are several); and the fields
    with another name do not matter: two collections that agree on the
    fields named epsilon give the same result. In each case the plugin has
    the name asked for and an empty namespace. *)
Theorem createPlugin_epsilon (name : string) (fc : PluginFieldCollection) :
  epsilon_fields_have_data fc ->
  ((forall i, 0 <= i < nbFields fc -> field_name (fields fc i) <> "epsilon"%string) ->
   createPlugin name fc
   = Some {| name_ := name; namespace_ := ""; m_ := {| epsilon := 0x3727C5AC |} |})
  /\ (forall (k : Z) (data : Z -> byte),
        0 <= k < nbFields fc ->
        field_name (fields fc k) = "epsilon"%string ->
        field_data (fields fc k) = Some data ->
        (forall j, k < j < nbFields fc -> field_name (fields fc j) <> "epsilon"%string) ->
        createPlugin name fc
        = Some {| name_ := name; namespace_ := "";
                  m_ := {| epsilon := le_value [data 0; data 1; data 2; data 3] |} |})
  /\ (forall fc' : PluginFieldCollection,
        nbFields fc' = nbFields fc ->
        (forall i, 0 <= i < nbFields fc ->
           field_name (fields fc i) = "epsilon"%string
           \/ field_name (fields fc' i) = "epsilon"%string ->
           fields fc' i = fields fc i) ->
        createPlugin name fc' = createPlugin name fc)
  /\ b32_of_bits 0x3727C5AC = S754_finite false 10995116 (-40)
  /\ 2 * Z.abs (10995116 * 10 ^ 5 - 2 ^ 40) <= 10 ^ 5.
Proof.
  intros Hdata. split; [|split; [|split]].
  - intros Hno. unfold createPlugin. rewrite createPlugin_fold_other; [reflexivity|].
    intros i Hi. apply Hno. apply In_field_indices in Hi. lia.
  - intros k data Hk Hs Hd Hlater. unfold createPlugin.
    rewrite (field_indices_split (Z.to_nat (nbFields fc)) (Z.to_nat k)) by lia.
    rewrite fold_left_app. cbn [fold_left].
    destruct (createPlugin_fold_some fc (map Z.of_nat (seq 0 (Z.to_nat k)))
                {| epsilon_var := float_1em5 |}) as [locals' Hpre].
    { intros i Hi. apply Hdata. apply In_field_indices in Hi. lia. }
    rewrite Hpre, Z2Nat.id by lia.
    rewrite (createPlugin_step_epsilon fc locals' k data Hs Hd).
    rewrite createPlugin_fold_other; [reflexivity|].
    intros j Hj. apply Hlater. apply in_map_iff in Hj. destruct Hj as (m & <- & Hm).
    apply in_seq in Hm. lia.
  - intros fc' Hnb Hagree. unfold createPlugin. rewrite Hnb.
    rewrite (createPlugin_fold_ext fc fc'); [reflexivity|].
    intros i Hi. apply Hagree. apply In_field_indices in Hi. lia.
  - split; [reflexivity|]. cbn. lia.
Qed.

Lemma createPlugin_epsilon_witness :
  epsilon_fields_have_data fc_sample
  /\ createPlugin "ln" fc_sample
     = Some {| name_ := "ln"; namespace_ := ""; m_ := {| epsilon := 0x3F000000 |} |}.
Proof.
  assert (Hdata : epsilon_fields_have_data fc_sample).
  { intros i Hi Hs. cbn [nbFields fc_sample] in Hi.
    assert (Hcase : i = 0 \/ i = 1) by lia.
    destruct Hcase as [-> | ->]; [discriminate Hs|]. now exists bytes_half. }
  split; [exact Hdata|].
  refine (proj1 (proj2 (createPlugin_epsilon "ln" fc_sample Hdata)) 1 bytes_half _ _ _ _).
  - cbn. lia.
  - reflexivity.
  - reflexivity.
  - intros j Hj. cbn [nbFields fc_sample] in Hj. lia.
Defined.

(** C8, a field without data. A field named epsilon may be present without
    the plugin having its value: on the schema of the creator itself, whose
    one field is named epsilon and has null data, [createPlugin]
    dereferences the null pointer and no plugin is produced. *)
Lemma createPlugin_schema_null :
  nbFields (getFieldNames (new_LayerNormPluginV1Creator statics_initial)) = 1
  /\ field_name (fields (getFieldNames (new_LayerNormPluginV1Creator statics_initial)) 0)
     = "epsilon"%string
  /\ field_data (fields (getFieldNames (new_LayerNormPluginV1Creator statics_initial)) 0)
     = None
  /\ createPlugin "LayerNorm" (getFieldNames (new_LayerNormPluginV1Creator statics_initial))
     = None.
Proof.
  split; [reflexivity|]. split; [reflexivity|]. split; [reflexivity|].
  apply (createPlugin_null_at _ _ 0); [cbn; lia|reflexivity|reflexivity].
Qed.

(** * Further properties of the kernel *)

Section TreeForm.
Context {F : Type} `{FloatOps F}.

Lemma block_mean_tree (pInput : Z -> F) (bid : Z) (temp0 : Z -> F) :
  0 <= bid < 2 ^ 23 ->
  block_mean 128 pInput bid temp0 = mean_tree (vector pInput bid).
Proof.
  intros Hb. unfold block_mean, temp_sum, mean_tree. rewrite reduce_64_tree.
  f_equal. apply tree_sum_ext. intros j Hj. change (2 ^ Z.of_nat 7) with 128 in Hj.
  now apply temp_loaded_slot.
Qed.

Lemma block_var_tree (pInput : Z -> F) (bid : Z) (temp0 : Z -> F) :
  0 <= bid < 2 ^ 23 ->
  block_var 128 pInput bid temp0 = var_tree (vector pInput bid).
Proof.
  intros Hb. unfold block_var, temp_sqsum, var_tree. rewrite reduce_64_tree.
  f_equal. apply tree_sum_ext. intros j Hj. change (2 ^ Z.of_nat 7) with 128 in Hj.
  rewrite temp_sqdev_slot by assumption. now rewrite block_mean_tree.
Qed.

Lemma normalised_tree (pInput : Z -> F) (epsilon : F) (bid : Z) (temp0 : Z -> F) (i : Z) :
  0 <= bid < 2 ^ 23 ->
  normalised pInput epsilon bid temp0 i = layerNorm_tree (vector pInput bid) epsilon i.
Proof.
  intros Hb. unfold normalised, layerNorm_tree.
  now rewrite block_mean_tree, block_var_tree.
Qed.

Lemma mean_tree_ext (x x' : Z -> F) :
  (forall j, 0 <= j < 256 -> x' j = x j) -> mean_tree x' = mean_tree x.
Proof.
  intros Hx. unfold mean_tree. f_equal. apply tree_sum_ext.
  intros j Hj. change (2 ^ Z.of_nat 7) with 128 in Hj. now rewrite !Hx by lia.
Qed.

Lemma var_tree_ext (x x' : Z -> F) :
  (forall j, 0 <= j < 256 -> x' j = x j) -> var_tree x' = var_tree x.
Proof.
  intros Hx. unfold var_tree. rewrite (mean_tree_ext x x' Hx). f_equal.
  apply tree_sum_ext. intros j Hj. change (2 ^ Z.of_nat 7) with 128 in Hj.
  now rewrite !Hx by lia.
Qed.

Lemma layerNorm_tree_ext (x x' : Z -> F) (epsilon : F) (i : Z) :
  (forall j, 0 <= j < 256 -> x' j = x j) -> 0 <= i < 256 ->
  layerNorm_tree x' epsilon i = layerNorm_tree x epsilon i.
Proof.
  intros Hx Hi. unfold layerNorm_tree.
  now rewrite (mean_tree_ext x x' Hx), (var_tree_ext x x' Hx), Hx.
Qed.

End TreeForm.

(** X1. In any arithmetic in which each +, -, * and / of the source is one
    operation of its own (for binary32: a build without contraction into
    fused multiply-adds), element [i] of vector [v] of the output is
    (x[i] - mean) * rsqrtf(var + epsilon), where mean is the tree-ordered
    sum of the 128 pairs x[t] + x[t+128] divided by 256 and var the
    tree-ordered sum of the 128 sums
    (x[t] - mean) * (x[t] - mean) + (x[t+128] - mean) * (x[t+128] - mean)
    divided by 256. *)
Theorem layerNormKernelV1_tree_form {F : Type} `{FloatOps F} (gridDim : nat)
    (smem : Z -> Z -> F) (pInput pOutput : Z -> F) (eps : F) (v i : Z) :
  Z.of_nat gridDim <= 2 ^ 23 -> 0 <= v < Z.of_nat gridDim -> 0 <= i < 256 ->
  let x := fun j => pInput (v * 256 + j) in
  let mean := fdiv (tree_sum 7 (fun t => fadd (x t) (x (t + 128))) 0) (i2f 256) in
  let var :=
    fdiv (tree_sum 7
            (fun t => fadd (fmul (fsub (x t) mean) (fsub (x t) mean))
                           (fmul (fsub (x (t + 128)) mean) (fsub (x (t + 128)) mean))) 0)
         (i2f 256) in
  layerNormKernelV1 gridDim 128 smem pInput pOutput eps (v * 256 + i)
  = fmul (fsub (x i) mean) (rsqrtf (fadd var eps))
  /\ layerNorm_tree (vector pInput v) eps i
     = fmul (fsub (x i) mean) (rsqrtf (fadd var eps)).
Proof.
  intros Hg Hv Hi x mean var. split; [|reflexivity].
  rewrite grid_output_inside by assumption.
  rewrite normalised_tree by lia. reflexivity.
Qed.

Lemma layerNormKernelV1_tree_form_witness :
  Z.of_nat 3 <= 2 ^ 23 /\ 0 <= 2 < Z.of_nat 3 /\ 0 <= 255 < 256
  /\ layerNormKernelV1 3 128 (fun _ => zeros) x_large_mean zeros (b32_of_bits float_1em5)
       (2 * 256 + 255)
     = layerNorm_tree (vector x_large_mean 2) (b32_of_bits float_1em5) 255.
Proof.
  assert (H1 : Z.of_nat 3 <= 2 ^ 23) by (cbn; lia).
  assert (H2 : 0 <= 2 < Z.of_nat 3) by (cbn; lia).
  assert (H3 : 0 <= 255 < 256) by lia.
  refine (conj H1 (conj H2 (conj H3 _))).
  exact (proj1 (layerNormKernelV1_tree_form 3 (fun _ => zeros) x_large_mean zeros
                  (b32_of_bits float_1em5) 2 255 H1 H2 H3)).
Defined.

(** X2. The elements the kernel stores for vector [v] depend on the 256
    elements of vector [v] of the input and on epsilon only: not on the
    other vectors, on the size of the grid, on what the output array or the
    shared memory held before. *)
Theorem layerNormKernelV1_vector_independent {F : Type} `{FloatOps F}
    (gridDim gridDim' : nat) (smem smem' : Z -> Z -> F)
    (pInput pInput' pOutput pOutput' : Z -> F) (eps : F) (v i : Z) :
  Z.of_nat gridDim <= 2 ^ 23 -> Z.of_nat gridDim' <= 2 ^ 23 ->
  0 <= v < Z.of_nat gridDim -> v < Z.of_nat gridDim' -> 0 <= i < 256 ->
  (forall j, 0 <= j < 256 -> pInput' (v * 256 + j) = pInput (v * 256 + j)) ->
  layerNormKernelV1 gridDim' 128 smem' pInput' pOutput' eps (v * 256 + i)
  = layerNormKernelV1 gridDim 128 smem pInput pOutput eps (v * 256 + i).
Proof.
  intros Hg Hg' Hv Hv' Hi Hx.
  rewrite !grid_output_inside by (assumption || lia).
  rewrite !normalised_tree by lia.
  now apply layerNorm_tree_ext.
Qed.

Lemma layerNormKernelV1_vector_independent_witness :
  Z.of_nat 1 <= 2 ^ 23 /\ Z.of_nat 4 <= 2 ^ 23 /\ 0 <= 0 < Z.of_nat 1 /\ 0 < Z.of_nat 4
  /\ 0 <= 9 < 256
  /\ (forall j, 0 <= j < 256 ->
        (fun a => if a <? 256 then x_large_mean a else FLT_MAX) (0 * 256 + j)
        = x_large_mean (0 * 256 + j))
  /\ layerNormKernelV1 4 128 (fun _ => x_FLT_MAX)
       (fun a => if a <? 256 then x_large_mean a else FLT_MAX) x_FLT_MAX
       (b32_of_bits float_1em5) (0 * 256 + 9)
     = layerNormKernelV1 1 128 (fun _ => zeros) x_large_mean zeros
         (b32_of_bits float_1em5) (0 * 256 + 9).
Proof.
  assert (H1 : Z.of_nat 1 <= 2 ^ 23) by (cbn; lia).
  assert (H2 : Z.of_nat 4 <= 2 ^ 23) by (cbn; lia).
  assert (H3 : 0 <= 0 < Z.of_nat 1) by (cbn; lia).
  assert (H4 : 0 < Z.of_nat 4) by (cbn; lia).
  assert (H5 : 0 <= 9 < 256) by lia.
  assert (H6 : forall j, 0 <= j < 256 ->
            (fun a => if a <? 256 then x_large_mean a else FLT_MAX) (0 * 256 + j)
            = x_large_mean (0 * 256 + j)).
  { intros j Hj. cbn beta. destruct (Z.ltb_spec (0 * 256 + j) 256); [reflexivity|lia]. }
  refine (conj H1 (conj H2 (conj H3 (conj H4 (conj H5 (conj H6 _)))))).
  exact (layerNormKernelV1_vector_independent 1 4 (fun _ => zeros) (fun _ => x_FLT_MAX)
           x_large_mean (fun a => if a <? 256 then x_large_mean a else FLT_MAX)
           zeros x_FLT_MAX (b32_of_bits float_1em5) 0 9 H1 H2 H3 H4 H5 H6).
Defined.

(** X3. A launch of [gridDim] blocks of 128 threads stores into the elements
    0 .. gridDim * 256 - 1 of the output array and into no other. *)
Theorem layerNormKernelV1_writes_confined {F : Type} `{FloatOps F} (gridDim : nat)
    (smem : Z -> Z -> F) (pInput pOutput : Z -> F) (eps : F) (a : Z) :
  Z.of_nat gridDim <= 2 ^ 23 -> ~ 0 <= a < Z.of_nat gridDim * 256 ->
  layerNormKernelV1 gridDim 128 smem pInput pOutput eps a = pOutput a.
Proof. intros Hg Ha. now apply grid_output_outside. Qed.

Lemma layerNormKernelV1_writes_confined_witness :
  Z.of_nat 2 <= 2 ^ 23 /\ ~ 0 <= 512 < Z.of_nat 2 * 256
  /\ layerNormKernelV1 2 128 (fun _ => zeros) x_large_mean x_FLT_MAX
       (b32_of_bits float_1em5) 512 = x_FLT_MAX 512.
Proof.
  assert (H1 : Z.of_nat 2 <= 2 ^ 23) by (cbn; lia).
  assert (H2 : ~ 0 <= 512 < Z.of_nat 2 * 256) by (cbn; lia).
  refine (conj H1 (conj H2 _)).
  exact (layerNormKernelV1_writes_confined 2 (fun _ => zeros) x_large_mean x_FLT_MAX
           (b32_of_bits float_1em5) 512 H1 H2).
Defined.

(** ** NaN in binary32 *)

Lemma b32_add_nan_l (y : spec_float) : fadd S754_nan y = S754_nan.
Proof. reflexivity. Qed.

Lemma b32_add_nan_r (x : spec_float) : fadd x S754_nan = S754_nan.
Proof. destruct x; reflexivity. Qed.

Lemma b32_sub_nan_r (x : spec_float) : fsub x S754_nan = S754_nan.
Proof. destruct x; reflexivity. Qed.

Lemma b32_mul_nan_l (y : spec_float) : fmul S754_nan y = S754_nan.
Proof. reflexivity. Qed.

Lemma b32_div_nan_l (y : spec_float) : fdiv S754_nan y = S754_nan.
Proof. reflexivity. Qed.

Lemma tree_sum_nan (k : nat) (f : Z -> spec_float) (i j : Z) :
  i <= j < i + 2 ^ Z.of_nat k -> f j = S754_nan -> tree_sum k f i = S754_nan.
Proof.
  revert f j. induction k as [|k IH]; intros f j Hj Hnan.
  - cbn in Hj. cbn. now replace i with j by lia.
  - assert (Hp : 2 ^ Z.of_nat (S k) = 2 * 2 ^ Z.of_nat k)
      by (rewrite Nat2Z.inj_succ, Z.pow_succ_r; lia).
    assert (0 < 2 ^ Z.of_nat k) by (apply Z.pow_pos_nonneg; lia).
    cbn [tree_sum].
    destruct (Z_lt_dec j (i + 2 ^ Z.of_nat k)) as [Hlow|Hhigh].
    + apply (IH _ j); [lia|]. rewrite Hnan. apply b32_add_nan_l.
    + apply (IH _ (j - 2 ^ Z.of_nat k)); [lia|].
      replace (j - 2 ^ Z.of_nat k + 2 ^ Z.of_nat k) with j by lia.
      rewrite Hnan. apply b32_add_nan_r.
Qed.

Lemma mean_tree_nan (x : Z -> spec_float) (j : Z) :
  0 <= j < 256 -> x j = S754_nan -> mean_tree x = S754_nan.
Proof.
  intros Hj Hnan. unfold mean_tree.
  destruct (Z_lt_dec j 128) as [Hlow|Hhigh].
  - rewrite (tree_sum_nan 7 _ 0 j); [reflexivity|cbn; lia|].
    rewrite Hnan. apply b32_add_nan_l.
  - rewrite (tree_sum_nan 7 _ 0 (j - 128)); [reflexivity|cbn; lia|].
    replace (j - 128 + 128) with j by lia. rewrite Hnan. apply b32_add_nan_r.
Qed.

(** X4. In binary32, a NaN anywhere in a vector makes the mean NaN, and all
    256 elements stored for that vector are NaN, whatever epsilon is. *)
Theorem layerNormKernelV1_nan_poisons_vector (gridDim : nat)
    (smem : Z -> Z -> spec_float) (pInput pOutput : Z -> spec_float)
    (eps : spec_float) (v i j : Z) :
  Z.of_nat gridDim <= 2 ^ 23 -> 0 <= v < Z.of_nat gridDim ->
  0 <= i < 256 -> 0 <= j < 256 ->
  pInput (v * 256 + j) = S754_nan ->
  layerNormKernelV1 gridDim 128 smem pInput pOutput eps (v * 256 + i) = S754_nan.
Proof.
  intros Hg Hv Hi Hj Hnan.
  rewrite grid_output_inside by assumption.
  rewrite normalised_tree by lia. unfold layerNorm_tree.
  rewrite (mean_tree_nan (vector pInput v) j Hj Hnan).
  rewrite b32_sub_nan_r. apply b32_mul_nan_l.
Qed.

Lemma layerNormKernelV1_nan_poisons_vector_witness :
  Z.of_nat 1 <= 2 ^ 23 /\ 0 <= 0 < Z.of_nat 1 /\ 0 <= 3 < 256 /\ 0 <= 200 < 256
  /\ x_with_nan (0 * 256 + 200) = S754_nan
  /\ layerNormKernelV1 1 128 (fun _ => zeros) x_with_nan zeros (b32_of_bits float_1em5)
       (0 * 256 + 3) = S754_nan.
Proof.
  assert (H1 : Z.of_nat 1 <= 2 ^ 23) by (cbn; lia).
  assert (H2 : 0 <= 0 < Z.of_nat 1) by (cbn; lia).
  assert (H3 : 0 <= 3 < 256) by lia.
  assert (H4 : 0 <= 200 < 256) by lia.
  assert (H5 : x_with_nan (0 * 256 + 200) = S754_nan) by reflexivity.
  refine (conj H1 (conj H2 (conj H3 (conj H4 (conj H5 _))))).
  exact (layerNormKernelV1_nan_poisons_vector 1 (fun _ => zeros) x_with_nan zeros
           (b32_of_bits float_1em5) 0 3 200 H1 H2 H3 H4 H5).
Defined.

(** ** The shared array *)

Section SharedArray.
Context {F : Type} `{FloatOps F}.

Lemma fold_left_cons {A B : Type} (f : A -> B -> A) (b : B) (l : list B) (a : A) :
  fold_left f (b :: l) a = fold_left f l (f a b).
Proof. reflexivity. Qed.

Lemma reduce_steps_agree (l : list Z) (temp temp' : Z -> F) :
  Forall (fun s : Z => 0 <= s <= 64) l ->
  (forall j, 0 <= j < 128 -> temp' j = temp j) ->
  forall j, 0 <= j < 128 ->
    fold_left (fun t stride => run_threads 128 (reduce_thread stride) t) l temp' j
    = fold_left (fun t stride => run_threads 128 (reduce_thread stride) t) l temp j.
Proof.
  revert temp temp'. induction l as [|s l IH]; intros temp temp' Hl Hagree.
  - exact Hagree.
  - rewrite !fold_left_cons. apply Forall_cons_iff in Hl. destruct Hl as [Hs Hl].
    apply IH; [exact Hl|]. intros j Hj.
    rewrite !run_reduce_thread by lia.
    destruct ((0 <=? j) && (j <? Z.of_nat 128) && (j <? s)) eqn:E.
    + apply andb_true_iff in E. destruct E as [_ E]. apply Z.ltb_lt in E.
      rewrite !Hagree by lia. reflexivity.
    + apply Hagree. exact Hj.
Qed.

Lemma reduce_steps_outside (l : list Z) (temp : Z -> F) (i : Z) :
  Forall (fun s : Z => 0 <= s <= 64) l -> ~ 0 <= i < 64 ->
  fold_left (fun t stride => run_threads 128 (reduce_thread stride) t) l temp i = temp i.
Proof.
  intros Hl Hi. revert temp Hl. induction l as [|s l IH]; intros temp Hl; [reflexivity|].
  rewrite fold_left_cons. apply Forall_cons_iff in Hl. destruct Hl as [Hs Hl].
  rewrite (IH _ Hl). rewrite run_reduce_thread by lia.
  destruct ((0 <=? i) && (i <? Z.of_nat 128) && (i <? s)) eqn:E; [|reflexivity].
  apply andb_true_iff in E. destruct E as [E1 E2].
  apply andb_true_iff in E1. destruct E1 as [E0 _].
  apply Z.ltb_lt in E2. apply Z.leb_le in E0. lia.
Qed.

Lemma strides_bounded : Forall (fun s : Z => 0 <= s <= 64) [64; 32; 16; 8; 4; 2; 1].
Proof. repeat constructor; lia. Qed.

End SharedArray.

(** X5. The reduction loop stays inside the 128 slots of [temp]: the slots
    0 .. 127 after the loop depend on the slots 0 .. 127 before it only, and
    no slot other than 0 .. 63 is changed. *)
Theorem reduce_within_shared_array {F : Type} `{FloatOps F} (temp temp' : Z -> F) (i : Z) :
  (forall j, 0 <= j < 128 -> temp' j = temp j) ->
  (0 <= i < 128 -> reduce 128 64 temp' i = reduce 128 64 temp i)
  /\ (~ 0 <= i < 64 -> reduce 128 64 temp i = temp i).
Proof.
  intros Hagree. rewrite !reduce_64_steps. split.
  - intros Hi. now apply reduce_steps_agree; [apply strides_bounded| |].
  - intros Hi. now apply reduce_steps_outside; [apply strides_bounded|].
Qed.

Lemma reduce_within_shared_array_witness :
  (forall j, 0 <= j < 128 ->
     (fun a => if a <? 128 then temp_cancelling a else S754_nan) j = temp_cancelling j)
  /\ reduce 128 64 (fun a => if a <? 128 then temp_cancelling a else S754_nan) 5
     = reduce 128 64 temp_cancelling 5.
Proof.
  assert (Hagree : forall j, 0 <= j < 128 ->
            (fun a => if a <? 128 then temp_cancelling a else S754_nan) j
            = temp_cancelling j).
  { intros j Hj. cbn beta. destruct (Z.ltb_spec j 128); [reflexivity|lia]. }
  split; [exact Hagree|].
  refine (proj1 (reduce_within_shared_array temp_cancelling
                   (fun a => if a <? 128 then temp_cancelling a else S754_nan) 5 Hagree) _).
  lia.
Defined.

(** X6. Between two barriers the order in which the threads of the block run
    does not matter for the shared array: a step of the reduction, the
    storing of the partial sums and the storing of the squared deviations
    give the same array for every permutation of the 128 threads. *)
Theorem shared_phases_any_order {F : Type} `{FloatOps F} (sched : list Z) (stride : Z)
    (pInput : Z -> F) (bid : Z) (mean : F) (temp : Z -> F) (i : Z) :
  Permutation sched (thread_ids 128) -> 0 <= stride ->
  run_schedule sched (reduce_thread stride) temp i
  = run_threads 128 (reduce_thread stride) temp i
  /\ run_schedule sched (store_partial pInput bid) temp i
     = run_threads 128 (store_partial pInput bid) temp i
  /\ run_schedule sched (store_sqdev pInput bid mean) temp i
     = run_threads 128 (store_sqdev pInput bid mean) temp i.
Proof.
  intros Hp Hs. split; [now apply reduce_step_any_order|].
  split.
  - apply (fill_any_order 128 sched
             (fun tx => fadd (value0 pInput bid tx) (value1 pInput bid tx)) temp i Hp).
  - apply (fill_any_order 128 sched
             (fun tx => sqdev (value0 pInput bid tx) (value1 pInput bid tx) mean) temp i Hp).
Qed.

Lemma shared_phases_any_order_witness :
  Permutation (rev (thread_ids 128)) (thread_ids 128) /\ 0 <= 32
  /\ run_schedule (rev (thread_ids 128)) (reduce_thread 32) temp_cancelling 1
     = run_threads 128 (reduce_thread 32) temp_cancelling 1.
Proof.
  assert (Hp : Permutation (rev (thread_ids 128)) (thread_ids 128))
    by (apply Permutation_sym, Permutation_rev).
  assert (Hs : 0 <= 32) by lia.
  refine (conj Hp (conj Hs _)).
  exact (proj1 (shared_phases_any_order (rev (thread_ids 128)) 32 zeros 0
                  (S754_zero false) temp_cancelling 1 Hp Hs)).
Defined.

(** X7. The [int] index wraps for large grids: in the blocks 2^23 .. 2^24 - 1
    the index [blockIdx.x * 256 + threadIdx.x] is negative, 2^32 below the
    position of the element, so these blocks address memory in front of the
    arrays. *)
Theorem index_wraps_negative (bid tx : Z) :
  2 ^ 23 <= bid < 2 ^ 24 -> 0 <= tx < 128 ->
  index bid tx = bid * 256 + tx - 2 ^ 32 /\ index bid tx < 0.
Proof.
  intros Hb Ht. unfold index. rewrite to_uint32_small by lia.
  unfold to_int32.
  replace (bid * 256 + tx + 2 ^ 31) with (bid * 256 + tx - 2 ^ 31 + 1 * 2 ^ 32) by lia.
  rewrite Z.mod_add by lia. rewrite Z.mod_small by lia. lia.
Qed.

Lemma index_wraps_negative_witness :
  2 ^ 23 <= 8388608 < 2 ^ 24 /\ 0 <= 0 < 128 /\ index 8388608 0 = - 2 ^ 31.
Proof.
  assert (H1 : 2 ^ 23 <= 8388608 < 2 ^ 24) by lia.
  assert (H2 : 0 <= 0 < 128) by lia.
  refine (conj H1 (conj H2 _)).
  rewrite (proj1 (index_wraps_negative 8388608 0 H1 H2)). reflexivity.
Defined.

(** * Further properties of the plugin and its creator *)

(** ** Bytes, second half of the round trip *)

Lemma byte_of_Z_of_byte (b : byte) : byte_of_Z (Z_of_byte b) = b.
Proof.
  unfold byte_of_Z. pose proof (Z_of_byte_range b) as Hr.
  rewrite Z.mod_small by exact Hr. unfold Z_of_byte.
  rewrite N2Z.id, Byte.of_to_N. reflexivity.
Qed.

Lemma byte_of_Z_low (b : byte) (v : Z) : byte_of_Z (Z_of_byte b + 256 * v) = b.
Proof.
  rewrite <- (byte_of_Z_of_byte b) at 2. unfold byte_of_Z.
  now rewrite (Z.mul_comm 256 v), Z.mod_add by lia.
Qed.

Lemma le_bytes_le_value (bs : list byte) : le_bytes (length bs) (le_value bs) = bs.
Proof.
  induction bs as [|b bs IH]; [reflexivity|].
  cbn [length le_value le_bytes]. rewrite byte_of_Z_low. f_equal.
  rewrite (Z.mul_comm 256), Z.div_add by lia.
  rewrite Z.div_small by apply Z_of_byte_range. exact IH.
Qed.

Lemma Configuration_of_bytes_mod (dst : Z -> byte) (m : Configuration) :
  Configuration_of_bytes (memcpy dst (Configuration_bytes m) sizeof_Configuration)
  = {| epsilon := epsilon m mod 2 ^ 32 |}.
Proof.
  unfold Configuration_of_bytes. f_equal. cbn [map]. unfold sizeof_Configuration.
  rewrite !memcpy_inside by lia.
  change (le_value (le_bytes 4 (epsilon m)) = epsilon m mod 2 ^ 32).
  apply le_value_le_bytes.
Qed.

Lemma c_str_idempotent (s : string) : c_str (c_str s) = c_str s.
Proof.
  induction s as [|c s IH]; [reflexivity|].
  cbn [c_str]. destruct (Ascii.eqb c Ascii.zero) eqn:E; [reflexivity|].
  cbn [c_str]. now rewrite E, IH.
Qed.

Lemma clone_fields (this : LayerNormPlugin) :
  clone this
  = {| name_ := name_ this; namespace_ := c_str (namespace_ this);
       m_ := {| epsilon := epsilon (m_ this) mod 2 ^ 32 |} |}.
Proof.
  unfold clone, setPluginNamespace, new_LayerNormPlugin_from_buffer, WHERE_AM_I.
  cbn [name_ namespace_ m_]. now rewrite Configuration_of_bytes_mod.
Qed.

(** X8. [clone] gives a plugin with the same name, the same Configuration and
    the same namespace, provided epsilon is a 32-bit pattern and the
    namespace holds no NUL (it goes through [c_str()]); the clone then
    enqueues the same launch. Cloning a clone changes nothing more. *)
Theorem clone_preserves {F : Type} (this : LayerNormPlugin)
    (inputDesc outputDesc : Z -> PluginTensorDesc) (inputs outputs : Z -> Z)
    (workspace stream : Z) (dev : Device F) :
  float_wf (epsilon (m_ this)) ->
  c_str (namespace_ this) = namespace_ this ->
  clone this = this
  /\ (enqueue (clone this) inputDesc outputDesc inputs outputs workspace stream dev).2
     = (enqueue this inputDesc outputDesc inputs outputs workspace stream dev).2
  /\ clone (clone this) = clone this.
Proof.
  intros Hwf Hns.
  assert (Hc : clone this = this).
  { rewrite clone_fields, Hns, Z.mod_small by exact Hwf. now destruct this as [n ns [e]]. }
  split; [exact Hc|]. split; now rewrite !Hc.
Qed.

Lemma clone_preserves_witness :
  float_wf (epsilon (m_ (setPluginNamespace plugin_1em5 "ns")))
  /\ c_str (namespace_ (setPluginNamespace plugin_1em5 "ns"))
     = namespace_ (setPluginNamespace plugin_1em5 "ns")
  /\ clone (setPluginNamespace plugin_1em5 "ns") = setPluginNamespace plugin_1em5 "ns".
Proof.
  assert (H1 : float_wf (epsilon (m_ (setPluginNamespace plugin_1em5 "ns"))))
    by (unfold float_wf, setPluginNamespace, plugin_1em5, new_LayerNormPlugin, WHERE_AM_I,
          float_1em5; cbn [m_ epsilon]; lia).
  assert (H2 : c_str (namespace_ (setPluginNamespace plugin_1em5 "ns"))
               = namespace_ (setPluginNamespace plugin_1em5 "ns")) by reflexivity.
  refine (conj H1 (conj H2 _)).
  exact (proj1 (clone_preserves (setPluginNamespace plugin_1em5 "ns")
                  (fun _ => desc_rank3) (fun _ => desc_rank3) (fun _ => 0) (fun _ => 1)
                  0 0 idle_device H1 H2)).
Defined.

(** X9. Without any condition, a clone has the name of the original and
    reports the same namespace through [getPluginNamespace]; the namespace
    it stores is the original's as [c_str()] gives it. *)
Theorem clone_namespace_c_str (this : LayerNormPlugin) :
  namespace_ (clone this) = c_str (namespace_ this)
  /\ getPluginNamespace (clone this) = getPluginNamespace this
  /\ name_ (clone this) = name_ this.
Proof.
  rewrite clone_fields. unfold getPluginNamespace, WHERE_AM_I. cbn [namespace_ name_].
  split; [reflexivity|]. split; [apply c_str_idempotent|reflexivity].
Qed.

(** X10. Deserializing a blob and serializing the plugin again gives back the
    four bytes of the blob, whatever they are. *)
Theorem reserialize_identical (name : string) (serialData buffer : Z -> byte)
    (serialLength i : Z) :
  0 <= i < getSerializationSize (deserializePlugin name serialData serialLength) ->
  serialize (deserializePlugin name serialData serialLength) buffer i = serialData i.
Proof.
  unfold getSerializationSize, WHERE_AM_I. intros Hi.
  unfold serialize, WHERE_AM_I. rewrite memcpy_inside by exact Hi.
  unfold deserializePlugin, new_LayerNormPlugin_from_buffer, WHERE_AM_I,
    Configuration_of_bytes, Configuration_bytes, sizeof_Configuration in *.
  cbn [m_ epsilon map]. rewrite !memcpy_inside by lia.
  pose proof (le_bytes_le_value [serialData 0; serialData 1; serialData 2; serialData 3])
    as Hle.
  cbn [length] in Hle. rewrite Hle.
  assert (Hcase : i = 0 \/ i = 1 \/ i = 2 \/ i = 3) by lia.
  destruct Hcase as [-> | [-> | [-> | ->]]]; reflexivity.
Qed.

Lemma reserialize_identical_witness :
  0 <= 3 < getSerializationSize (deserializePlugin "p" bytes_half 4)
  /\ serialize (deserializePlugin "p" bytes_half 4) (fun _ => xff) 3 = x3f.
Proof.
  assert (H1 : 0 <= 3 < getSerializationSize (deserializePlugin "p" bytes_half 4))
    by (unfold getSerializationSize, sizeof_Configuration; lia).
  split; [exact H1|].
  exact (reserialize_identical "p" bytes_half (fun _ => xff) 4 3 H1).
Defined.

(** ** The pattern of epsilon *)

Lemma createPlugin_fold_wf (fc : PluginFieldCollection) (l : list Z) (locals locals' : Locals) :
  float_wf (epsilon_var locals) ->
  fold_left (createPlugin_step {[ "epsilon"%string := local_epsilon ]} fc) l (Some locals)
  = Some locals' ->
  float_wf (epsilon_var locals').
Proof.
  revert locals. induction l as [|i l IH]; intros locals Hwf Hfold.
  - cbn in Hfold. now inversion Hfold; subst.
  - cbn [fold_left] in Hfold.
    destruct (createPlugin_step {[ "epsilon"%string := local_epsilon ]} fc (Some locals) i)
      as [locals1|] eqn:Hstep.
    + apply (IH locals1); [|exact Hfold].
      unfold createPlugin_step in Hstep.
      destruct (({[ "epsilon"%string := local_epsilon ]} : gmap string Local)
                  !! field_name (fields fc i)) as [p|].
      * destruct (field_data (fields fc i)) as [data|]; [|discriminate].
        inversion Hstep; subst. destruct p. cbn. apply load_float_wf.
      * now inversion Hstep; subst.
    + exfalso. clear -Hfold. induction l as [|j l IHl]; [discriminate|].
      cbn [fold_left] in Hfold. apply IHl. exact Hfold.
Qed.

(** X11. Every plugin that comes out of [deserializePlugin], [createPlugin]
    or [clone] holds an epsilon that is a 32-bit pattern; [createPlugin]
    gives it the name asked for and an empty namespace. *)
Theorem epsilon_is_32_bits (name : string) (serialData : Z -> byte) (serialLength : Z)
    (fc : PluginFieldCollection) (this : LayerNormPlugin) :
  float_wf (epsilon (m_ (deserializePlugin name serialData serialLength)))
  /\ float_wf (epsilon (m_ (clone this)))
  /\ (forall p, createPlugin name fc = Some p ->
        float_wf (epsilon (m_ p)) /\ name_ p = name /\ namespace_ p = ""%string).
Proof.
  split; [|split].
  - unfold deserializePlugin, new_LayerNormPlugin_from_buffer, Configuration_of_bytes,
      WHERE_AM_I. cbn [m_ epsilon].
    apply (le_value_range (map _ [0; 1; 2; 3])).
  - rewrite clone_fields. cbn [m_ epsilon]. unfold float_wf.
    apply Z.mod_pos_bound. lia.
  - intros p Hp. unfold createPlugin in Hp.
    destruct (fold_left _ _ _) as [locals|] eqn:Hfold; [|discriminate].
    inversion Hp; subst. unfold new_LayerNormPlugin, WHERE_AM_I. cbn [m_ epsilon name_ namespace_].
    split; [|split; reflexivity].
    apply (createPlugin_fold_wf fc _ _ locals) in Hfold; [exact Hfold|].
    unfold float_wf, float_1em5. cbn [epsilon_var]. lia.
Qed.

(** ** Null data *)

Lemma createPlugin_fold_none_inv (fc : PluginFieldCollection) (l : list Z) (locals : Locals) :
  fold_left (createPlugin_step {[ "epsilon"%string := local_epsilon ]} fc) l (Some locals)
  = None ->
  exists i, In i l /\ field_name (fields fc i) = "epsilon"%string
            /\ field_data (fields fc i) = None.
Proof.
  revert locals. induction l as [|i l IH]; intros locals Hfold; [discriminate|].
  cbn [fold_left] in Hfold.
  destruct (string_dec (field_name (fields fc i)) "epsilon") as [Hs|Hs].
  - destruct (field_data (fields fc i)) as [data|] eqn:Hd.
    + rewrite (createPlugin_step_epsilon fc locals i data Hs Hd) in Hfold.
      destruct (IH _ Hfold) as (k & Hk & Hk'). exists k. split; [now right|exact Hk'].
    + exists i. split; [now left|]. now split.
  - rewrite createPlugin_step_other in Hfold by exact Hs.
    destruct (IH _ Hfold) as (k & Hk & Hk'). exists k. split; [now right|exact Hk'].
Qed.

(** X12. [createPlugin] dereferences a null pointer exactly when one of the
    first [nbFields] fields is named epsilon and has null data, wherever it
    stands and whatever the other fields are; otherwise it returns a
    plugin. *)
Theorem createPlugin_null_data (name : string) (fc : PluginFieldCollection) :
  createPlugin name fc = None
  <-> exists i, 0 <= i < nbFields fc
                /\ field_name (fields fc i) = "epsilon"%string
                /\ field_data (fields fc i) = None.
Proof.
  split.
  - unfold createPlugin. intros Hnone.
    destruct (fold_left _ _ _) as [locals|] eqn:Hfold; [discriminate|].
    apply createPlugin_fold_none_inv in Hfold. destruct Hfold as (i & Hi & Hs & Hd).
    exists i. split; [|now split]. apply In_field_indices in Hi. lia.
  - intros (i & Hi & Hs & Hd). exact (createPlugin_null_at name fc i Hi Hs Hd).
Qed.

(** X13. However many creators have been constructed before, after the
    constructor the static schema has exactly one field: epsilon, of type
    kFLOAT32 and length 1, with null data. So the collection returned by
    [getFieldNames] cannot be handed to [createPlugin] as it is. *)
Theorem creator_schema (statics : CreatorStatics) (name : string) :
  let statics' := new_LayerNormPluginV1Creator statics in
  nbFields (getFieldNames statics') = 1
  /\ fields (getFieldNames statics') 0
     = {| field_name := "epsilon"; field_data := None;
          field_type := kFLOAT32; field_length := 1 |}
  /\ length (attr_ statics') = 1%nat
  /\ new_LayerNormPluginV1Creator statics' = statics'
  /\ createPlugin name (getFieldNames statics') = None.
Proof.
  cbv zeta. split; [reflexivity|]. split; [reflexivity|]. split; [reflexivity|].
  split; [reflexivity|].
  apply (createPlugin_null_at _ _ 0); [cbn; lia|reflexivity|reflexivity].
Qed.

(** ** Negotiation as a whole *)

(** X14. A combination is accepted at both positions exactly when the input
    and the output are both float in linear layout; the accepted output type
    is the one [getOutputDataType] declares. Positions other than 0 and 1 are
    always refused. *)
Theorem supportsFormatCombination_accepts_one (this : LayerNormPlugin)
    (inOut : Z -> PluginTensorDesc) (nbInputs nbOutputs pos index : Z)
    (inputTypes : Z -> DataType) :
  ((supportsFormatCombination this 0 inOut nbInputs nbOutputs).1 = true
   /\ (supportsFormatCombination this 1 inOut nbInputs nbOutputs).1 = true
   <-> type (inOut 0) = kFLOAT /\ format (inOut 0) = kLINEAR
       /\ type (inOut 1) = kFLOAT /\ format (inOut 1) = kLINEAR)
  /\ ((supportsFormatCombination this 0 inOut nbInputs nbOutputs).1 = true ->
      (supportsFormatCombination this 1 inOut nbInputs nbOutputs).1 = true ->
      type (inOut 1) = getOutputDataType this index inputTypes nbInputs)
  /\ (pos <> 0 -> pos <> 1 ->
      (supportsFormatCombination this pos inOut nbInputs nbOutputs).1 = false).
Proof.
  unfold supportsFormatCombination, getOutputDataType, WHERE_AM_I.
  cbn [Z.eqb Pos.eqb fst].
  rewrite !andb_true_iff, !bool_decide_eq_true.
  split; [|split].
  - split.
    + intros [[Ht0 Hf0] [Ht1 Hf1]]. rewrite Ht1, Hf1. auto.
    + intros (Ht0 & Hf0 & Ht1 & Hf1). rewrite Ht1, Hf1, Ht0, Hf0. auto.
  - intros [Ht0 _] [Ht1 _]. congruence.
  - intros H0 H1. destruct (Z.eqb_spec pos 0); [contradiction|].
    destruct (Z.eqb_spec pos 1); [contradiction|reflexivity].
Qed.

(** ** What [enqueue] touches *)

Lemma to_int32_range (z : Z) : - 2 ^ 31 <= to_int32 z < 2 ^ 31.
Proof.
  unfold to_int32. pose proof (Z.mod_pos_bound (z + 2 ^ 31) (2 ^ 32)). lia.
Qed.

Lemma to_uint32_nonpositive (n : Z) :
  - 2 ^ 31 <= n <= 0 -> to_uint32 n = 0 \/ 2 ^ 31 <= to_uint32 n.
Proof.
  intros Hn. unfold to_uint32. destruct (Z.eq_dec n 0) as [->|Hne]; [now left|right].
  replace n with (n + 2 ^ 32 + (- 1) * 2 ^ 32) by lia.
  rewrite Z.mod_add by lia. rewrite Z.mod_small; lia.
Qed.

(** X15. For an input of rank 3, [d0, d1, 256], with at most 2^23 vectors,
    an output tensor that is the input tensor or does not overlap it, and an
    idle device, once the stream has completed [enqueue] has changed the
    [d0 * d1 * 256] cells of the output tensor and no other cell of the
    device memory: every cell outside the tensor is as before, and element
    [i] of vector [v] holds the element the kernel computes from vector [v]
    of the input. *)
Theorem enqueue_writes_confined {F : Type} `{FloatOps F} `{FloatRepr F}
    (this : LayerNormPlugin) (inputDesc outputDesc : Z -> PluginTensorDesc)
    (inputs outputs : Z -> Z) (workspace stream : Z) (dev : Device F)
    (smem : Z -> Z -> F) (d0 d1 : Z) (rest : list Z) (a v i : Z) :
  nbDims (dims (inputDesc 0)) = 3 ->
  d (dims (inputDesc 0)) = d0 :: d1 :: 256 :: rest ->
  1 <= d0 * d1 <= 2 ^ 23 ->
  inputs 0 = outputs 0
  \/ inputs 0 + d0 * d1 * 256 <= outputs 0
  \/ outputs 0 + d0 * d1 * 256 <= inputs 0 ->
  pending dev = [] ->
  let dev' := cudaStreamSynchronize smem
                (enqueue this inputDesc outputDesc inputs outputs workspace stream dev).2 in
  volume (dims (inputDesc 0)) = d0 * d1 * 256
  /\ (~ outputs 0 <= a < outputs 0 + volume (dims (inputDesc 0)) ->
      mem dev' a = mem dev a)
  /\ (0 <= v < d0 * d1 -> 0 <= i < 256 ->
      mem dev' (outputs 0 + (v * 256 + i))
      = layerNorm_tree (fun j => mem dev (inputs 0 + (v * 256 + j)))
          (of_bits (epsilon (m_ this))) i).
Proof.
  intros Hn Hd Hg _ Hidle dev'.
  assert (Hvol : volume (dims (inputDesc 0)) = d0 * d1 * 256).
  { unfold volume. rewrite Hn, Hd. change (Z.to_nat 3) with 3%nat. simpl. ring. }
  split; [exact Hvol|]. split.
  - intros Ha. rewrite Hvol in Ha. unfold dev'.
    now apply (enqueue_synchronize_outside _ _ _ _ _ _ _ _ smem d0 d1 (256 :: rest)).
  - intros Hv Hi. unfold dev'.
    rewrite (enqueue_synchronize_inside _ _ _ _ _ _ _ _ smem d0 d1 (256 :: rest) v i
               Hd Hg Hidle Hv Hi).
    rewrite normalised_tree by lia. reflexivity.
Qed.

Lemma enqueue_writes_confined_witness :
  nbDims (dims desc_rank3) = 3
  /\ d (dims desc_rank3) = 2 :: 3 :: 256 :: [0; 0; 0; 0; 0]
  /\ 1 <= 2 * 3 <= 2 ^ 23
  /\ (0 = 4096 \/ 0 + 2 * 3 * 256 <= 4096 \/ 4096 + 2 * 3 * 256 <= 0)
  /\ pending idle_device = []
  /\ mem (cudaStreamSynchronize (fun _ => zeros)
            (enqueue plugin_1em5 (fun _ => desc_rank3) (fun _ => desc_rank3)
               (fun _ => 0) (fun _ => 4096) 0 0 idle_device).2) (4096 + 1536)
     = mem idle_device (4096 + 1536).
Proof.
  assert (H0 : nbDims (dims desc_rank3) = 3) by reflexivity.
  assert (H1 : d (dims desc_rank3) = 2 :: 3 :: 256 :: [0; 0; 0; 0; 0]) by reflexivity.
  assert (H2 : 1 <= 2 * 3 <= 2 ^ 23) by lia.
  assert (H3 : pending idle_device = []) by reflexivity.
  assert (Hb : 0 = 4096 \/ 0 + 2 * 3 * 256 <= 4096 \/ 4096 + 2 * 3 * 256 <= 0)
    by (right; left; lia).
  refine (conj H0 (conj H1 (conj H2 (conj Hb (conj H3 _))))).
  refine (proj1 (proj2 (enqueue_writes_confined plugin_1em5 (fun _ => desc_rank3)
                          (fun _ => desc_rank3) (fun _ => 0) (fun _ => 4096) 0 0
                          idle_device (fun _ => zeros) 2 3 [0; 0; 0; 0; 0]
                          (4096 + 1536) 0 0 H0 H1 H2 Hb H3)) _).
  rewrite (proj1 (enqueue_writes_confined plugin_1em5 (fun _ => desc_rank3)
                    (fun _ => desc_rank3) (fun _ => 0) (fun _ => 4096) 0 0
                    idle_device (fun _ => zeros) 2 3 [0; 0; 0; 0; 0]
                    (4096 + 1536) 0 0 H0 H1 H2 Hb H3)).
  lia.
Defined.

(** X17. For an input of rank 2, [d0, 256], the launch has [d0 * 256] blocks
    (the ranges of [d0 * 256 * 256] cells they load and store taken to be the
    same or not to overlap): once the stream has completed, the cells behind
    the end of the output tensor, up to 256 times its size, have been
    overwritten with elements computed from the cells behind the end of the
    input tensor. *)
Theorem enqueue_rank2_overrun {F : Type} `{FloatOps F} `{FloatRepr F}
    (this : LayerNormPlugin) (inputDesc outputDesc : Z -> PluginTensorDesc)
    (inputs outputs : Z -> Z) (workspace stream : Z) (dev : Device F)
    (smem : Z -> Z -> F) (d0 : Z) (rest : list Z) (v i : Z) :
  nbDims (dims (inputDesc 0)) = 2 ->
  d (dims (inputDesc 0)) = d0 :: 256 :: rest ->
  1 <= d0 -> d0 * 256 <= 2 ^ 23 ->
  inputs 0 = outputs 0
  \/ inputs 0 + d0 * 256 * 256 <= outputs 0
  \/ outputs 0 + d0 * 256 * 256 <= inputs 0 ->
  pending dev = [] ->
  d0 <= v < d0 * 256 -> 0 <= i < 256 ->
  let dev' := cudaStreamSynchronize smem
                (enqueue this inputDesc outputDesc inputs outputs workspace stream dev).2 in
  volume (dims (inputDesc 0)) = d0 * 256
  /\ outputs 0 + volume (dims (inputDesc 0)) <= outputs 0 + (v * 256 + i)
  /\ mem dev' (outputs 0 + (v * 256 + i))
     = layerNorm_tree (fun j => mem dev (inputs 0 + (v * 256 + j)))
         (of_bits (epsilon (m_ this))) i.
Proof.
  intros Hn Hd H1 Hg _ Hidle Hv Hi dev'.
  assert (Hvol : volume (dims (inputDesc 0)) = d0 * 256).
  { unfold volume. rewrite Hn, Hd. change (Z.to_nat 2) with 2%nat. simpl. ring. }
  split; [exact Hvol|]. split; [lia|].
  unfold dev'.
  rewrite (enqueue_synchronize_inside _ _ _ _ _ _ _ _ smem d0 256 rest v i Hd);
    [|lia|exact Hidle|lia|exact Hi].
  rewrite normalised_tree by lia. reflexivity.
Qed.

Lemma enqueue_rank2_overrun_witness :
  nbDims (dims desc_rank2) = 2
  /\ d (dims desc_rank2) = 4 :: 256 :: [0; 0; 0; 0; 0; 0]
  /\ 1 <= 4 /\ 4 * 256 <= 2 ^ 23
  /\ (0 = 2 ^ 20 \/ 0 + 4 * 256 * 256 <= 2 ^ 20 \/ 2 ^ 20 + 4 * 256 * 256 <= 0)
  /\ pending device_x = []
  /\ 4 <= 7 < 4 * 256 /\ 0 <= 208 < 256
  /\ volume (dims desc_rank2) = 4 * 256
  /\ mem (cudaStreamSynchronize (fun _ => zeros)
            (enqueue plugin_1em5 (fun _ => desc_rank2) (fun _ => desc_rank2)
               (fun _ => 0) (fun _ => 2 ^ 20) 0 0 device_x).2)
         (2 ^ 20 + (7 * 256 + 208))
     = layerNorm_tree (fun j => mem device_x (0 + (7 * 256 + j)))
         (of_bits (epsilon (m_ plugin_1em5))) 208.
Proof.
  assert (H0 : nbDims (dims desc_rank2) = 2) by reflexivity.
  assert (H1 : d (dims desc_rank2) = 4 :: 256 :: [0; 0; 0; 0; 0; 0]) by reflexivity.
  assert (H2 : 1 <= 4) by lia.
  assert (H3 : 4 * 256 <= 2 ^ 23) by lia.
  assert (Hb : 0 = 2 ^ 20 \/ 0 + 4 * 256 * 256 <= 2 ^ 20 \/ 2 ^ 20 + 4 * 256 * 256 <= 0)
    by (right; left; lia).
  assert (H4 : pending device_x = []) by reflexivity.
  assert (H5 : 4 <= 7 < 4 * 256) by lia.
  assert (H6 : 0 <= 208 < 256) by lia.
  pose proof (enqueue_rank2_overrun plugin_1em5 (fun _ => desc_rank2)
                (fun _ => desc_rank2) (fun _ => 0) (fun _ => 2 ^ 20) 0 0 device_x
                (fun _ => zeros) 4 [0; 0; 0; 0; 0; 0] 7 208 H0 H1 H2 H3 Hb H4 H5 H6)
    as (Hvol & _ & Hcell).
  exact (conj H0 (conj H1 (conj H2 (conj H3 (conj Hb (conj H4 (conj H5 (conj H6
           (conj Hvol Hcell))))))))).
Defined.

(** X16. When the [int] product of the first two extents is zero or negative
    (an empty tensor, a negative extent, a product that wraps), no kernel is
    launched: the grid is refused, nothing waits on the stream, the device
    memory stays as it is also after completion, and the status is 0. *)
Theorem enqueue_nonpositive_grid {F : Type} `{FloatOps F} `{FloatRepr F}
    (this : LayerNormPlugin) (inputDesc outputDesc : Z -> PluginTensorDesc)
    (inputs outputs : Z -> Z) (workspace stream : Z) (dev : Device F)
    (smem : Z -> Z -> F) :
  to_int32 (d_at (dims (inputDesc 0)) 0 * d_at (dims (inputDesc 0)) 1) <= 0 ->
  pending dev = [] ->
  let r := enqueue this inputDesc outputDesc inputs outputs workspace stream dev in
  r.1.1 = 0
  /\ pending r.2 = []
  /\ last_error r.2 = cudaErrorInvalidConfiguration
  /\ mem (cudaStreamSynchronize smem r.2) = mem dev.
Proof.
  intros Hn Hidle r.
  assert (Hinvalid : forall l : Launch,
            gridDim l = to_uint32 (to_int32 (d_at (dims (inputDesc 0)) 0
                                             * d_at (dims (inputDesc 0)) 1)) ->
            valid_config l = false).
  { intros l Hl. unfold valid_config. rewrite Hl.
    pose proof (to_int32_range (d_at (dims (inputDesc 0)) 0 * d_at (dims (inputDesc 0)) 1)).
    destruct (to_uint32_nonpositive
                (to_int32 (d_at (dims (inputDesc 0)) 0 * d_at (dims (inputDesc 0)) 1)))
      as [E|E]; [lia| |].
    - rewrite E. reflexivity.
    - apply andb_false_iff. left. apply andb_false_iff. left.
      apply andb_false_iff. right. apply Z.leb_gt. lia. }
  unfold r, enqueue, WHERE_AM_I, cudaLaunchKernel. cbn [fst snd].
  rewrite Hinvalid by reflexivity. cbn [pending last_error mem].
  split; [reflexivity|]. split; [exact Hidle|]. split; [reflexivity|].
  unfold cudaStreamSynchronize. cbn [mem pending]. now rewrite Hidle.
Qed.

Lemma enqueue_nonpositive_grid_witness :
  to_int32 (d_at (dims desc_empty) 0 * d_at (dims desc_empty) 1) <= 0
  /\ pending idle_device = []
  /\ pending (enqueue plugin_1em5 (fun _ => desc_empty) (fun _ => desc_empty)
                (fun _ => 0) (fun _ => 1) 0 0 idle_device).2 = [].
Proof.
  assert (H1 : to_int32 (d_at (dims desc_empty) 0 * d_at (dims desc_empty) 1) <= 0)
    by (vm_compute; discriminate).
  assert (H2 : pending idle_device = []) by reflexivity.
  refine (conj H1 (conj H2 _)).
  exact (proj1 (proj2 (enqueue_nonpositive_grid plugin_1em5 (fun _ => desc_empty)
                         (fun _ => desc_empty) (fun _ => 0) (fun _ => 1) 0 0 idle_device
                         (fun _ => zeros) H1 H2))).
Defined.
